(** * agent-reviews: comment aggregation and change detection

    A shallow embedding of [lib/comments.js] (pagination, body clean-up,
    normalisation, filtering, reply submission) and of the watch loop of
    [bin/agent-reviews.js], with the properties of the design document
    stated and settled against that embedding. *)

From Stdlib Require Import ZArith NArith List Ascii String DecimalString Lia.
From Stdlib Require Import Permutation Sorted.
From stdpp Require Import gmap.
Import ListNotations.

Set Default Proof Using "Type".

(** ** JavaScript strings

    A JavaScript string is a sequence of UTF-16 code units; every operation
    the program uses ([replace], [trim], [startsWith], [endsWith],
    [includes], [===]) works on code units. *)

Definition code_unit := N.
Definition jsstring := list code_unit.

(** String literals of the source, written as Rocq strings. *)
Definition lit (s : string) : jsstring :=
  map N_of_ascii (list_ascii_of_string s).

Definition LF : code_unit := 10%N.

(** [\s] of a regular expression and the characters removed by
    [String.prototype.trim]: WhiteSpace and LineTerminator of ECMAScript. *)
Definition isWhiteSpace (c : code_unit) : bool :=
  ((9 <=? c) && (c <=? 13) || (c =? 32) || (c =? 160) || (c =? 5760)
   || (8192 <=? c) && (c <=? 8202) || (c =? 8232) || (c =? 8233)
   || (c =? 8239) || (c =? 8287) || (c =? 12288) || (c =? 65279))%N.

(** Canonicalize of a regular expression with the [i] flag and without the
    [u] flag, on the code units that can equal the canonical form of an
    ASCII pattern character: a code unit of 128 or more never canonicalizes
    below 128, so only ASCII letters fold. *)
Definition canonicalize (c : code_unit) : code_unit :=
  (if (97 <=? c) && (c <=? 122) then c - 32 else c)%N.

Fixpoint dropWhile {A} (p : A -> bool) (s : list A) : list A :=
  match s with
  | [] => []
  | c :: s' => if p c then dropWhile p s' else s
  end.

Fixpoint takeWhile {A} (p : A -> bool) (s : list A) : list A :=
  match s with
  | [] => []
  | c :: s' => if p c then c :: takeWhile p s' else []
  end.

(** [String.prototype.trim]: white space is removed from both ends. *)
Fixpoint trimEnd (s : jsstring) : jsstring :=
  match s with
  | [] => []
  | c :: s' =>
      match trimEnd s' with
      | [] => if isWhiteSpace c then [] else [c]
      | t => c :: t
      end
  end.

Definition trimStart (s : jsstring) : jsstring := dropWhile isWhiteSpace s.

Definition trim (s : jsstring) : jsstring := trimEnd (trimStart s).

Fixpoint startsWith (s p : jsstring) : bool :=
  match p, s with
  | [], _ => true
  | _ :: _, [] => false
  | a :: p', c :: s' => (c =? a)%N && startsWith s' p'
  end.

Definition endsWith (s p : jsstring) : bool := startsWith (rev s) (rev p).

Fixpoint includes (s p : jsstring) : bool :=
  startsWith s p ||
  match s with
  | [] => false
  | _ :: s' => includes s' p
  end.

Definition jsstring_eqb (a b : jsstring) : bool :=
  bool_decide (a = b).

(** ** Regular expressions

    The fragment of ECMAScript regular expressions the program uses: a
    sequence of items, each a single-character matcher or a starred
    single-character matcher, greedy ([*]) or lazy ([*?]).  [x+] is [x x*]
    and [x{3,}] is [x x x x*]. *)

Inductive item :=
| One (p : code_unit -> bool)
| Many (greedy : bool) (p : code_unit -> bool).

Definition regex := list item.

Definition anyChar (_ : code_unit) : bool := true.
Definition isChar (a : code_unit) (c : code_unit) : bool := (c =? a)%N.
Definition isCharI (a : code_unit) (c : code_unit) : bool :=
  (canonicalize c =? canonicalize a)%N.
Definition notChar (a : code_unit) (c : code_unit) : bool := negb (c =? a)%N.

(** A literal run of pattern characters, case-sensitive and under [i]. *)
Definition chars (s : string) : regex := map (fun a => One (isChar a)) (lit s).
Definition charsI (s : string) : regex := map (fun a => One (isCharI a)) (lit s).

(** Backtracking match of [re] at the start of [s], in the priority order of
    ECMAScript: a greedy star tries one more character first, a lazy star
    tries the rest of the pattern first.  The result is the text left after
    the match. *)
Fixpoint match_here (re : regex) : jsstring -> option jsstring :=
  match re with
  | [] => fun s => Some s
  | One p :: re' => fun s =>
      match s with
      | c :: s' => if p c then match_here re' s' else None
      | [] => None
      end
  | Many true p :: re' =>
      fix greedy (s : jsstring) : option jsstring :=
        match s with
        | c :: s' =>
            if p c then
              match greedy s' with
              | Some r => Some r
              | None => match_here re' s
              end
            else match_here re' s
        | [] => match_here re' []
        end
  | Many false p :: re' =>
      fix lazy (s : jsstring) : option jsstring :=
        match match_here re' s with
        | Some r => Some r
        | None =>
            match s with
            | c :: s' => if p c then lazy s' else None
            | [] => None
            end
        end
  end.

(** [s.replace(re, rep)] for a regular expression with the [g] flag and a
    replacement without [$] patterns: matches are found left to right, each
    search resuming where the previous match ended (one code unit further
    after an empty match).  The scan consumes at least one code unit per
    step, so [S (length s)] steps are enough. *)
Fixpoint replace_fuel (fuel : nat) (re : regex) (rep s : jsstring) : jsstring :=
  match fuel with
  | O => s
  | S fuel' =>
      match match_here re s with
      | Some rest =>
          if (length rest <? length s)%nat
          then rep ++ replace_fuel fuel' re rep rest
          else match s with
               | c :: s' => rep ++ c :: replace_fuel fuel' re rep s'
               | [] => rep
               end
      | None =>
          match s with
          | c :: s' => c :: replace_fuel fuel' re rep s'
          | [] => []
          end
      end
  end.

Definition replace (re : regex) (rep s : jsstring) : jsstring :=
  replace_fuel (S (length s)) re rep s.

(** [re.test(s)] without the sticky flag: is there a match anywhere in [s]? *)
Fixpoint has_match (re : regex) (s : jsstring) : bool :=
  match match_here re s with
  | Some _ => true
  | None =>
      match s with
      | [] => false
      | _ :: s' => has_match re s'
      end
  end.

(** ** Body cleanup ([cleanBody]) *)

(** [/<!--[\s\S]*?-->/g] *)
Definition re_html_comment : regex :=
  chars "<!--" ++ [Many false anyChar] ++ chars "-->".

(** [/<details>\s*<summary>\s*Additional Locations[\s\S]*?<\/details>/gi] *)
Definition re_additional_locations : regex :=
  charsI "<details>" ++ [Many true isWhiteSpace] ++
  charsI "<summary>" ++ [Many true isWhiteSpace] ++
  charsI "Additional Locations" ++ [Many false anyChar] ++
  charsI "</details>".

(** [/<p>\s*<a [^>]*cursor\.com[\s\S]*?<\/p>/gi] *)
Definition re_cursor_link : regex :=
  charsI "<p>" ++ [Many true isWhiteSpace] ++ charsI "<a " ++
  [Many true (notChar 62%N)] ++ charsI "cursor.com" ++
  [Many false anyChar] ++ charsI "</p>".

(** [/\n{3,}/g] *)
Definition re_blank_lines : regex :=
  [One (isChar LF); One (isChar LF); One (isChar LF); Many true (isChar LF)].

(** The fourth rewrite of [cleanBody], named for the lemmas about it. *)
Definition collapse (s : jsstring) : jsstring := replace re_blank_lines [LF; LF] s.

(** No run of three newlines in [s]. *)
Definition no_triple (s : jsstring) : Prop :=
  forall a b, s <> a ++ LF :: LF :: LF :: b.

(** No match of the three boilerplate patterns is left in [s]. *)
Definition boilerplate_free (s : jsstring) : Prop :=
  has_match re_html_comment s = false /\
  has_match re_additional_locations s = false /\
  has_match re_cursor_link s = false.

(** A body is a string or absent ([null], [undefined]: [None]).  [!body]
    holds for an absent body and for the empty string. *)
Definition cleanBody (body : option jsstring) : option jsstring :=
  match body with
  | None => None
  | Some [] => Some []
  | Some s =>
      let cleaned := s in
      let cleaned := replace re_html_comment [] cleaned in
      let cleaned := replace re_additional_locations [] cleaned in
      let cleaned := replace re_cursor_link [] cleaned in
      let cleaned := replace re_blank_lines [LF; LF] cleaned in
      Some (trim cleaned)
  end.

(** The text [cleanBody] computes for a string, named for the lemmas. *)
Definition cleaned_text (s : jsstring) : jsstring :=
  trim (collapse (replace re_cursor_link []
    (replace re_additional_locations [] (replace re_html_comment [] s)))).

(** ** Comment classification *)

(** [x === "s"], for a value that is a string or absent. *)
Definition str_is (x : option jsstring) (s : string) : bool :=
  match x with
  | Some u => jsstring_eqb u (lit s)
  | None => false
  end.

(** A meta filter takes the login ([comment.user?.login], absent when the
    user is [null]) and the body, which [isMetaComment] has checked to be a
    non-empty string. *)
Definition metaFilter := option jsstring -> jsstring -> bool.

Definition DEFAULT_META_FILTERS : list metaFilter :=
  [ (fun user body => str_is user "vercel[bot]" && startsWith body (lit "[vc]:"));
    (fun user body => str_is user "supabase[bot]" && startsWith body (lit "[supa]:"));
    (fun user body =>
       str_is user "cursor[bot]" &&
       startsWith body (lit "Cursor Bugbot has reviewed your changes")) ].

Definition isMetaComment (user body : option jsstring)
    (metaFilters : list metaFilter) : bool :=
  match body with
  | None | Some [] => false
  | Some b => existsb (fun filter => filter user b) metaFilters
  end.

Definition isBot (username : option jsstring) : bool :=
  match username with
  | None | Some [] => false
  | Some u =>
      endsWith u (lit "[bot]") ||
      jsstring_eqb u (lit "Copilot") ||
      includes u (lit "bot") ||
      jsstring_eqb u (lit "github-actions")
  end.

(** ** Raw API data and the unified comment model

    Identifiers are JavaScript numbers holding integers.  The API sends a
    timestamp as an ISO-8601 string; the model carries it as what
    [new Date(t).getTime()] gives for it, which is what the sort compares: a
    time value in milliseconds, or [NaN] ([None]) when the field is missing
    or does not parse (a review that is still pending has no
    [submitted_at]).  Logins, bodies and the other optional fields are
    strings or absent. *)

Record ReviewComment := {
  rc_id : Z;
  rc_user : option jsstring;
  rc_body : option jsstring;
  rc_path : option jsstring;
  rc_line : option Z;
  rc_original_line : option Z;
  rc_diff_hunk : option jsstring;
  rc_created_at : option Z;
  rc_updated_at : option Z;
  rc_html_url : jsstring;
  rc_in_reply_to_id : option Z
}.

Record IssueComment := {
  ic_id : Z;
  ic_user : option jsstring;
  ic_body : option jsstring;
  ic_created_at : option Z;
  ic_updated_at : option Z;
  ic_html_url : jsstring
}.

Record Review := {
  rv_id : Z;
  rv_user : option jsstring;
  rv_body : option jsstring;
  rv_state : jsstring;
  rv_submitted_at : option Z;
  rv_html_url : jsstring
}.

Record RawData := {
  reviewComments : list ReviewComment;
  issueComments : list IssueComment;
  reviews : list Review
}.

Inductive CommentType := review_comment | issue_comment | review.

Record Reply := {
  r_id : Z;
  r_user : option jsstring;
  r_body : option jsstring;
  r_createdAt : option Z;
  r_isBot : bool
}.

Record Comment := {
  c_id : Z;
  c_type : CommentType;
  c_user : option jsstring;
  c_isBot : bool;
  c_path : option jsstring;
  c_line : option Z;
  c_diffHunk : option jsstring;
  c_body : option jsstring;
  c_state : option jsstring;
  c_createdAt : option Z;
  c_updatedAt : option Z;
  c_url : jsstring;
  c_replies : list Reply;
  c_hasHumanReply : bool;
  c_hasAnyReply : bool;
  c_isResolved : bool
}.

Record ProcessOptions := { metaFilters : option (list metaFilter) }.

(** Truthiness of an optional number: absent and [0] are falsy. *)
Definition truthyZ (x : option Z) : bool :=
  match x with
  | Some n => negb (n =? 0)%Z
  | None => false
  end.

(** [a || b] on optional numbers and [s || null] on optional strings. *)
Definition orZ (a b : option Z) : option Z := if truthyZ a then a else b.
Definition orNull (s : option jsstring) : option jsstring :=
  match s with
  | Some (_ :: _) => s
  | _ => None
  end.

(** ** Sorting

    [Array.prototype.sort] calls the comparator and takes a result of [NaN]
    ([None]) for [+0].  It is stable; with a consistent comparator its result
    is determined, and this insertion sort computes it: [x] moves past [y]
    exactly when [cmp x y > 0].  When some comparison is [NaN] the comparator
    is not consistent and ECMAScript leaves the order to the engine: there
    the insertion sort is one admissible engine.  The statements below about
    the order of the output assume that every creation time parses, where
    the result is the same for every engine ([sort_is_the_stable_sort]); the
    one evaluation with a missing time is at three entities whose two
    adjacent comparisons are both [NaN], which V8, the engine of Node, takes
    for one run already in order and leaves as they are. *)
Definition sortCompare (v : option Z) : Z := default 0%Z v.

Fixpoint sort_insert {A} (cmp : A -> A -> option Z) (x : A) (l : list A) : list A :=
  match l with
  | [] => [x]
  | y :: l' =>
      if (0 <? sortCompare (cmp x y))%Z then y :: sort_insert cmp x l' else x :: l
  end.

Definition sort {A} (cmp : A -> A -> option Z) (l : list A) : list A :=
  fold_right (sort_insert cmp) [] l.

(** ** Processing ([processComments]) *)

Definition mkReply (comment : ReviewComment) : Reply :=
  {| r_id := rc_id comment;
     r_user := rc_user comment;
     r_body := cleanBody (rc_body comment);
     r_createdAt := rc_created_at comment;
     r_isBot := isBot (rc_user comment) |}.

(** One iteration of the first loop: [repliesMap] maps a parent id to the
    array of its replies, in the order received. *)
Definition addReply (repliesMap : gmap Z (list Reply)) (comment : ReviewComment)
    : gmap Z (list Reply) :=
  match rc_in_reply_to_id comment with
  | Some parent =>
      if truthyZ (Some parent) then
        let repliesMap :=
          match repliesMap !! parent with
          | None => <[parent := []]> repliesMap
          | Some _ => repliesMap
          end in
        <[parent := default [] (repliesMap !! parent) ++ [mkReply comment]]> repliesMap
      else repliesMap
  | None => repliesMap
  end.

Definition buildRepliesMap (rcs : list ReviewComment) : gmap Z (list Reply) :=
  fold_left addReply rcs ∅.

Definition mkReviewComment (replies : list Reply) (comment : ReviewComment) : Comment :=
  {| c_id := rc_id comment;
     c_type := review_comment;
     c_user := rc_user comment;
     c_isBot := isBot (rc_user comment);
     c_path := rc_path comment;
     c_line := orZ (rc_line comment) (rc_original_line comment);
     c_diffHunk := orNull (rc_diff_hunk comment);
     c_body := cleanBody (rc_body comment);
     c_state := None;
     c_createdAt := rc_created_at comment;
     c_updatedAt := rc_updated_at comment;
     c_url := rc_html_url comment;
     c_replies := replies;
     c_hasHumanReply := existsb (fun r => negb (r_isBot r)) replies;
     c_hasAnyReply := (0 <? length replies)%nat;
     c_isResolved := false |}.

Definition mkIssueComment (comment : IssueComment) : Comment :=
  {| c_id := ic_id comment;
     c_type := issue_comment;
     c_user := ic_user comment;
     c_isBot := isBot (ic_user comment);
     c_path := None;
     c_line := None;
     c_diffHunk := None;
     c_body := cleanBody (ic_body comment);
     c_state := None;
     c_createdAt := ic_created_at comment;
     c_updatedAt := ic_updated_at comment;
     c_url := ic_html_url comment;
     c_replies := [];
     c_hasHumanReply := false;
     c_hasAnyReply := false;
     c_isResolved := false |}.

Definition mkReview (rv : Review) : Comment :=
  {| c_id := rv_id rv;
     c_type := review;
     c_user := rv_user rv;
     c_isBot := isBot (rv_user rv);
     c_path := None;
     c_line := None;
     c_diffHunk := None;
     c_body := cleanBody (rv_body rv);
     c_state := Some (rv_state rv);
     c_createdAt := rv_submitted_at rv;
     c_updatedAt := rv_submitted_at rv;
     c_url := rv_html_url rv;
     c_replies := [];
     c_hasHumanReply := false;
     c_hasAnyReply := false;
     c_isResolved :=
       jsstring_eqb (rv_state rv) (lit "APPROVED") ||
       jsstring_eqb (rv_state rv) (lit "DISMISSED") |}.

(** [!review.body?.trim()] *)
Definition blankBody (body : option jsstring) : bool :=
  match body with
  | None => true
  | Some b => match trim b with [] => true | _ :: _ => false end
  end.

(** The bodies of the three [for] loops that push onto [processed]. *)
Definition pushReviewComment (mf : list metaFilter) (repliesMap : gmap Z (list Reply))
    (processed : list Comment) (comment : ReviewComment) : list Comment :=
  if truthyZ (rc_in_reply_to_id comment) then processed
  else if isMetaComment (rc_user comment) (rc_body comment) mf then processed
  else
    let replies := default [] (repliesMap !! rc_id comment) in
    processed ++ [mkReviewComment replies comment].

Definition pushIssueComment (mf : list metaFilter)
    (processed : list Comment) (comment : IssueComment) : list Comment :=
  if isMetaComment (ic_user comment) (ic_body comment) mf then processed
  else processed ++ [mkIssueComment comment].

Definition pushReview (mf : list metaFilter)
    (processed : list Comment) (rv : Review) : list Comment :=
  if isMetaComment (rv_user rv) (rv_body rv) mf then processed
  else if blankBody (rv_body rv) then processed
  else processed ++ [mkReview rv].

(** [new Date(b.createdAt).getTime() - new Date(a.createdAt).getTime()]:
    [NaN] as soon as one of the two is. *)
Definition byDateDesc (a b : Comment) : option Z :=
  match c_createdAt b, c_createdAt a with
  | Some tb, Some ta => Some (tb - ta)%Z
  | _, _ => None
  end.

(** [a] may stand before [b] in a sequence sorted by [createdAt] descending:
    both have a creation time and the one of [b] is not later. *)
Definition newestFirst (a b : Comment) : Prop :=
  match c_createdAt a, c_createdAt b with
  | Some ta, Some tb => (tb <= ta)%Z
  | _, _ => False
  end.

(** [a] was created strictly later than [b]. *)
Definition strictlyNewer (a b : Comment) : Prop :=
  match c_createdAt a, c_createdAt b with
  | Some ta, Some tb => (tb < ta)%Z
  | _, _ => False
  end.

(** Every entity of the sequence has a creation time that parses. *)
Definition dated (cs : list Comment) : Prop :=
  forall e, In e cs -> c_createdAt e <> None.

(** The entities of [cs] created at time [t]. *)
Definition createdAtTime (t : Z) (cs : list Comment) : list Comment :=
  List.filter (fun c => bool_decide (c_createdAt c = Some t)) cs.

(** The thread roots that are emitted, and the replies declared for [parent]. *)
Definition isRoot (mf : list metaFilter) (comment : ReviewComment) : bool :=
  negb (truthyZ (rc_in_reply_to_id comment)) &&
  negb (isMetaComment (rc_user comment) (rc_body comment) mf).

Definition isReplyTo (parent : Z) (comment : ReviewComment) : bool :=
  truthyZ (rc_in_reply_to_id comment) &&
  bool_decide (rc_in_reply_to_id comment = Some parent).

Definition keepIssueComment (mf : list metaFilter) (comment : IssueComment) : bool :=
  negb (isMetaComment (ic_user comment) (ic_body comment) mf).

Definition keepReview (mf : list metaFilter) (rv : Review) : bool :=
  negb (isMetaComment (rv_user rv) (rv_body rv) mf) && negb (blankBody (rv_body rv)).

Definition processComments (data : RawData) (options : ProcessOptions) : list Comment :=
  let mf := default DEFAULT_META_FILTERS (metaFilters options) in
  let repliesMap := buildRepliesMap (reviewComments data) in
  let processed := [] in
  let processed := fold_left (pushReviewComment mf repliesMap) (reviewComments data) processed in
  let processed := fold_left (pushIssueComment mf) (issueComments data) processed in
  let processed := fold_left (pushReview mf) (reviews data) processed in
  sort byDateDesc processed.

(** The sequence [processed] just before the sort. *)
Definition emitted (data : RawData) (options : ProcessOptions) : list Comment :=
  let mf := default DEFAULT_META_FILTERS (metaFilters options) in
  map (fun c => mkReviewComment
                  (map mkReply (List.filter (isReplyTo (rc_id c)) (reviewComments data))) c)
      (List.filter (isRoot mf) (reviewComments data))
  ++ map mkIssueComment (List.filter (keepIssueComment mf) (issueComments data))
  ++ map mkReview (List.filter (keepReview mf) (reviews data)).

(** The factory of the test suite: a finding of [cursor[bot]] on
    [src/index.js], with the given id, creation time and parent. *)
Definition makeReviewComment (id created_at : Z) (in_reply_to_id : option Z)
    : ReviewComment :=
  {| rc_id := id;
     rc_user := Some (lit "cursor[bot]");
     rc_body := Some (lit "A finding");
     rc_path := Some (lit "src/index.js");
     rc_line := Some 10%Z;
     rc_original_line := Some 10%Z;
     rc_diff_hunk := Some (lit "@@ -1,3 +1,4 @@");
     rc_created_at := Some created_at;
     rc_updated_at := Some created_at;
     rc_html_url := lit "https://github.com/org/repo/pull/1#discussion_r1";
     rc_in_reply_to_id := in_reply_to_id |}.

Definition makeReview (id submitted_at : Z) (state : string) (body : option jsstring)
    : Review :=
  {| rv_id := id;
     rv_user := Some (lit "pbakaus");
     rv_body := body;
     rv_state := lit state;
     rv_submitted_at := Some submitted_at;
     rv_html_url := lit "https://github.com/org/repo/pull/1#pullrequestreview-1" |}.

(** A review that is still pending: the API sends no [submitted_at]. *)
Definition pendingReview (id : Z) (body : string) : Review :=
  {| rv_id := id;
     rv_user := Some (lit "pbakaus");
     rv_body := Some (lit body);
     rv_state := lit "PENDING";
     rv_submitted_at := None;
     rv_html_url := lit "https://github.com/org/repo/pull/1#pullrequestreview-2" |}.

Definition defaultOptions : ProcessOptions := {| metaFilters := None |}.

Definition isReviewType (c : Comment) : bool :=
  match c_type c with review => true | _ => false end.

(** A body with no written text: absent, empty or white space only. *)
Definition noText (body : option jsstring) : Prop :=
  match body with
  | None => True
  | Some b => forallb isWhiteSpace b = true
  end.

(** The comment with inline id [i] shows nowhere in [out]: no inline entity
    and no reply carries the id. *)
Definition absent_from (i : Z) (out : list Comment) : Prop :=
  forall e, In e out ->
    (c_type e = review_comment -> c_id e <> i) /\
    (forall r, In r (c_replies e) -> r_id r <> i).

(** No other inline comment of [rcs] carries the id of [c]. *)
Definition unique_id (c : ReviewComment) (rcs : list ReviewComment) : Prop :=
  forall c', In c' rcs -> rc_id c' = rc_id c -> c' = c.

(** ** Filtering ([filterComments]) *)

Record Options := {
  botsOnly : bool;
  humansOnly : bool;
  filter_ : option jsstring;
  watchInterval : Z;
  watchTimeout : Z
}.

Definition unresolvedP (c : Comment) : bool := negb (c_isResolved c || c_hasHumanReply c).
Definition unansweredP (c : Comment) : bool := negb (c_hasAnyReply c).

(** The value computed, on the contents of the arrays. *)
Definition filterComments (comments : list Comment) (options : Options) : list Comment :=
  let filtered := comments in
  let filtered :=
    if botsOnly options then List.filter c_isBot filtered
    else if humansOnly options then List.filter (fun c => negb (c_isBot c)) filtered
    else filtered in
  let filtered :=
    if str_is (filter_ options) "unresolved" then List.filter unresolvedP filtered
    else if str_is (filter_ options) "unanswered" then List.filter unansweredP filtered
    else filtered in
  filtered.

(** The same function on array objects.  The store holds the arrays; a
    reference is an index into it.  [Array.prototype.filter] reads the array
    behind its reference and allocates a new array for the result; nothing
    in [filterComments] writes to an existing array. *)
Abbreviation ref := nat.
Abbreviation store := (list (list Comment)).

Definition array_filter (p : Comment -> bool) (r : ref) (h : store) : option (ref * store) :=
  match h !! r with
  | Some xs => Some (length h, h ++ [List.filter p xs])
  | None => None
  end.

Definition filterComments_ref (comments : ref) (options : Options) (h : store)
    : option (ref * store) :=
  let filtered := Some (comments, h) in
  let filtered :=
    if botsOnly options then
      filtered ≫= (fun '(r, h) => array_filter c_isBot r h)
    else if humansOnly options then
      filtered ≫= (fun '(r, h) => array_filter (fun c => negb (c_isBot c)) r h)
    else filtered in
  let filtered :=
    if str_is (filter_ options) "unresolved" then
      filtered ≫= (fun '(r, h) => array_filter unresolvedP r h)
    else if str_is (filter_ options) "unanswered" then
      filtered ≫= (fun '(r, h) => array_filter unansweredP r h)
    else filtered in
  filtered.

(** Some filter of [options] is active: an actor-class option or a
    recognized state filter. *)
Definition filtering (options : Options) : bool :=
  botsOnly options || humansOnly options ||
  str_is (filter_ options) "unresolved" || str_is (filter_ options) "unanswered".

(** Every array of [h] is in [h'] under its reference, with its contents. *)
Definition preserved (h h' : store) : Prop :=
  forall (l : ref) (ys : list Comment), h !! l = Some ys -> h' !! l = Some ys.

Definition noOptions : Options :=
  {| botsOnly := false; humansOnly := false; filter_ := None;
     watchInterval := 30; watchTimeout := 600 |}.

(** The three entities of the test suite, as far as the filters read them. *)
Definition testEntity (id : Z) (isBot isResolved hasHumanReply hasAnyReply : bool) : Comment :=
  {| c_id := id; c_type := issue_comment; c_user := None; c_isBot := isBot;
     c_path := None; c_line := None; c_diffHunk := None; c_body := None;
     c_state := None; c_createdAt := Some 0%Z; c_updatedAt := Some 0%Z; c_url := [];
     c_replies := []; c_hasHumanReply := hasHumanReply;
     c_hasAnyReply := hasAnyReply; c_isResolved := isResolved |}.

Definition testComments : list Comment :=
  [ testEntity 1 true false false false;
    testEntity 2 false false true true;
    testEntity 3 true true false true ].

(** ** HTTP transport

    [proxyFetch] is injected.  Its answers are not under the program's
    control, so the transport is any function from the number of requests
    made so far and the request to a response. *)

Inductive RequestBody :=
| JsonBody (body : jsstring).  (* JSON.stringify({ body }) *)

Record Request := {
  req_method : jsstring;
  req_url : jsstring;
  req_headers : list (jsstring * jsstring);
  req_body : option RequestBody
}.

Record Response (A : Type) := {
  ok : bool;
  status : N;
  json : A;          (* await response.json() *)
  text : jsstring;   (* await response.text() *)
  link : option jsstring  (* response.headers.get("link") *)
}.
Arguments ok {A} _.
Arguments status {A} _.
Arguments json {A} _.
Arguments text {A} _.
Arguments link {A} _.

Definition Transport (A : Type) := nat -> Request -> Response A.

Record Error := { message : jsstring }.

Inductive Result (A : Type) :=
| Returned (value : A)
| Thrown (error : Error).
Arguments Returned {A} _.
Arguments Thrown {A} _.

Definition USER_AGENT : jsstring := lit "agent-reviews".

(** A number in a template literal. *)
Definition dec (n : N) : jsstring := lit (NilZero.string_of_uint (N.to_uint n)).

Definition apiHeaders (token : jsstring) : list (jsstring * jsstring) :=
  [ (lit "Authorization", lit "Bearer " ++ token);
    (lit "Accept", lit "application/vnd.github.v3+json");
    (lit "User-Agent", USER_AGENT) ].

Definition postHeaders (token : jsstring) : list (jsstring * jsstring) :=
  [ (lit "Authorization", lit "Bearer " ++ token);
    (lit "Content-Type", lit "application/json");
    (lit "Accept", lit "application/vnd.github.v3+json");
    (lit "User-Agent", USER_AGENT) ].

Definition getRequest (url token : jsstring) : Request :=
  {| req_method := lit "GET"; req_url := url;
     req_headers := apiHeaders token; req_body := None |}.

Definition postRequest (url token body : jsstring) : Request :=
  {| req_method := lit "POST"; req_url := url;
     req_headers := postHeaders token; req_body := Some (JsonBody body) |}.

(** ** Paginated fetch ([fetchAllPages]) *)

Definition DQUOTE : string := String "034" EmptyString.

(** [/<([^>]+)>;\s*rel="next"/] *)
Definition re_next_link : regex :=
  chars "<" ++ [One (notChar 62%N); Many true (notChar 62%N)] ++ chars ">;" ++
  [Many true isWhiteSpace] ++ chars ("rel=" ++ DQUOTE ++ "next" ++ DQUOTE).

(** The text from the leftmost match of [re] on. *)
Fixpoint search (re : regex) (s : jsstring) : option jsstring :=
  match match_here re s with
  | Some _ => Some s
  | None =>
      match s with
      | [] => None
      | _ :: s' => search re s'
      end
  end.

(** [linkHeader.match(...)] and its group 1.  The group is followed by [>]
    in the pattern, so it is the whole run of characters other than [>]
    after the opening [<]. *)
Definition nextLink (linkHeader : option jsstring) : option jsstring :=
  match linkHeader with
  | None | Some [] => None
  | Some h =>
      match search re_next_link h with
      | Some (_ :: after) => Some (takeWhile (notChar 62%N) after)
      | _ => None
      end
  end.

(** The [while (nextUrl)] loop: [nextUrl] is falsy when [null] or empty.
    [n] counts the requests made.  The loop runs as long as the server
    keeps sending a next link, hence the fuel. *)
Fixpoint fetchLoop {A} (fuel : nat) (token : jsstring) (proxyFetch : Transport (list A))
    (nextUrl : option jsstring) (results : list A) (n : nat)
    : option (Result (list A) * nat) :=
  match nextUrl with
  | None | Some [] => Some (Returned results, n)
  | Some url =>
      match fuel with
      | O => None
      | S fuel' =>
          let response := proxyFetch n (getRequest url token) in
          if negb (ok response) then
            Some (Thrown {| message := lit "API request failed: " ++ dec (status response) |}, S n)
          else
            let data := json response in
            let results := results ++ data in
            let nextUrl := nextLink (link response) in
            fetchLoop fuel' token proxyFetch nextUrl results (S n)
      end
  end.

Definition fetchAllPages {A} (fuel : nat) (url token : jsstring)
    (proxyFetch : Transport (list A)) (n : nat) : option (Result (list A) * nat) :=
  fetchLoop fuel token proxyFetch (Some url) [] n.

(** [OkPages proxyFetch token nextUrl n pages nextUrl' n']: from [nextUrl],
    with [n] requests made, the loop fetches [pages] one after the other, all
    of them successful, and stands at [nextUrl'] with [n'] requests made. *)
Inductive OkPages {A} (proxyFetch : Transport (list A)) (token : jsstring)
    : option jsstring -> nat -> list (Response (list A)) -> option jsstring -> nat -> Prop :=
| OkPages_nil nextUrl n :
    OkPages proxyFetch token nextUrl n [] nextUrl n
| OkPages_cons c url n pages nextUrl' n' :
    ok (proxyFetch n (getRequest (c :: url) token)) = true ->
    OkPages proxyFetch token
      (nextLink (link (proxyFetch n (getRequest (c :: url) token)))) (S n)
      pages nextUrl' n' ->
    OkPages proxyFetch token (Some (c :: url)) n
      (proxyFetch n (getRequest (c :: url) token) :: pages) nextUrl' n'.

(** A transport for examples: the pages are served in order, whatever is
    requested; past the last one the server answers [404]. *)
Definition serve {A} (pages : list (Response A)) (missing : A) : Transport A :=
  fun n _ =>
    nth n pages {| ok := false; status := 404; json := missing;
                   text := lit "Not Found"; link := None |}.

Definition okPage {A} (data : A) (linkHeader : option jsstring) : Response A :=
  {| ok := true; status := 200; json := data; text := []; link := linkHeader |}.

Definition failedPage {A} (code : N) (data : A) (body : string) : Response A :=
  {| ok := false; status := code; json := data; text := lit body; link := None |}.

(** A [link] header naming [url] as the next page. *)
Definition nextHeader (url : string) : option jsstring :=
  Some (lit ("<" ++ url ++ ">; rel=" ++ DQUOTE ++ "next" ++ DQUOTE)).

(** ** Reply ([replyToComment]) *)

Definition repliesUrl (owner repo : jsstring) (prNumber : N) (commentId : jsstring) : jsstring :=
  lit "https://api.github.com/repos/" ++ owner ++ lit "/" ++ repo ++
  lit "/pulls/" ++ dec prNumber ++ lit "/comments/" ++ commentId ++ lit "/replies".

Definition issueCommentsUrl (owner repo : jsstring) (prNumber : N) : jsstring :=
  lit "https://api.github.com/repos/" ++ owner ++ lit "/" ++ repo ++
  lit "/issues/" ++ dec prNumber ++ lit "/comments".

(** The body of the fallback comment. *)
Definition fallbackBody (commentId message : jsstring) : jsstring :=
  lit "> Re: comment " ++ commentId ++ [LF; LF] ++ message.

Definition replyToComment {A} (owner repo : jsstring) (prNumber : N)
    (commentId message token : jsstring) (proxyFetch : Transport A) (n : nat)
    : Result A * nat :=
  let response :=
    proxyFetch n (postRequest (repliesUrl owner repo prNumber commentId) token message) in
  if negb (ok response) then
    let issueResponse :=
      proxyFetch (S n)
        (postRequest (issueCommentsUrl owner repo prNumber) token
           (fallbackBody commentId message)) in
    if negb (ok issueResponse) then
      let error := text issueResponse in
      (Thrown {| message := lit "Failed to reply: " ++ dec (status issueResponse)
                            ++ lit " - " ++ error |}, S (S n))
    else (Returned (json issueResponse), S (S n))
  else (Returned (json response), S n).

(** ** Watch mode ([watchForComments])

    [fetchPRComments] and the clock are the loop's collaborators: the k-th
    call of [fetchPRComments] yields the three collections or rejects, and
    [clock k] is what [Date.now()] reads during poll [k] ([clock 0] at the
    start).  What the loop does to the outside is recorded as a trace. *)

Inductive event :=
| Sleep (seconds : Z)
| Fetch
| InitialState (existing : list Comment)
| NewCommentsDetected (found : nat)
| CaughtAdditional (late : nat)
| Report (newComments : list Comment)   (* formatted, then as JSON *)
| NoNewComments (poll : nat) (inactiveSeconds : Z)
| WatchComplete (tracked : nat).

Record WatchState := {
  seenIds : gset Z;
  lastActivityTime : Z;
  pollCount : nat;
  fetches : nat;
  trace : list event
}.

Inductive Exit :=
| ExitNewComments (newComments : list Comment)
| ExitTimeout
| Rejected.

Definition emit (e : event) (st : WatchState) : WatchState :=
  {| seenIds := seenIds st; lastActivityTime := lastActivityTime st;
     pollCount := pollCount st; fetches := fetches st;
     trace := trace st ++ [e] |}.

Definition sleep (seconds : Z) (st : WatchState) : WatchState := emit (Sleep seconds) st.

(** [for (const comment of cs) seenIds.add(comment.id)] *)
Definition markSeen (cs : list Comment) (st : WatchState) : WatchState :=
  {| seenIds := fold_left (fun seen c => {[c_id c]} ∪ seen) cs (seenIds st);
     lastActivityTime := lastActivityTime st;
     pollCount := pollCount st; fetches := fetches st; trace := trace st |}.

Definition bumpPoll (st : WatchState) : WatchState :=
  {| seenIds := seenIds st; lastActivityTime := lastActivityTime st;
     pollCount := S (pollCount st); fetches := fetches st; trace := trace st |}.

(** One [fetchPRComments] call followed by [processComments] (default
    options) and [filterComments]. *)
Definition fetchFiltered (fetchPRComments : nat -> option RawData) (options : Options)
    (st : WatchState) : option (list Comment) * WatchState :=
  let st' := {| seenIds := seenIds st; lastActivityTime := lastActivityTime st;
                pollCount := pollCount st; fetches := S (fetches st);
                trace := trace st ++ [Fetch] |} in
  match fetchPRComments (fetches st) with
  | None => (None, st')
  | Some rawData =>
      let processed := processComments rawData {| metaFilters := None |} in
      (Some (filterComments processed options), st')
  end.

Definition unseen (st : WatchState) (c : Comment) : bool :=
  negb (bool_decide (c_id c ∈ seenIds st)).

(** [Math.round(x / 1000)] on an integer [x]. *)
Definition roundSeconds (ms : Z) : Z := ((ms + 500) / 1000)%Z.

(** The body of [while (true)]: either the loop goes on in a new state or
    the function returns (or rejects). *)
Inductive Step :=
| Continue (st : WatchState)
| Stop (exit : Exit) (st : WatchState).

Definition pollOnce (fetchPRComments : nat -> option RawData) (clock : nat -> Z)
    (options : Options) (st : WatchState) : Step :=
  let st := sleep (watchInterval options) st in
  let st := bumpPoll st in
  match fetchFiltered fetchPRComments options st with
  | (None, st) => Stop Rejected st
  | (Some filtered, st) =>
      let newComments := List.filter (unseen st) filtered in
      if (0 <? length newComments)%nat then
        let st := markSeen newComments st in
        let st := emit (NewCommentsDetected (length newComments)) st in
        let st := sleep 5 st in
        match fetchFiltered fetchPRComments options st with
        | (None, st) => Stop Rejected st
        | (Some graceFiltered, st) =>
            let lateComments := List.filter (unseen st) graceFiltered in
            let st := markSeen lateComments st in
            let newComments := newComments ++ lateComments in
            let st :=
              if (0 <? length lateComments)%nat
              then emit (CaughtAdditional (length lateComments)) st else st in
            let st := emit (Report newComments) st in
            Stop (ExitNewComments newComments) st
        end
      else
        let inactiveSeconds := roundSeconds (clock (pollCount st) - lastActivityTime st) in
        let st := emit (NoNewComments (pollCount st) inactiveSeconds) st in
        if (watchTimeout options <=? inactiveSeconds)%Z then
          let st := emit (WatchComplete (size (seenIds st))) st in
          Stop ExitTimeout st
        else Continue st
  end.

Fixpoint watchLoop (fuel : nat) (fetchPRComments : nat -> option RawData)
    (clock : nat -> Z) (options : Options) (st : WatchState) : option (Exit * WatchState) :=
  match fuel with
  | O => None
  | S fuel' =>
      match pollOnce fetchPRComments clock options st with
      | Continue st' => watchLoop fuel' fetchPRComments clock options st'
      | Stop exit st' => Some (exit, st')
      end
  end.

(** The ids of a sequence of entities, as a set. *)
Definition idsOf (cs : list Comment) : gset Z := list_to_set (map c_id cs).

(** One fetch-normalize-filter pass on [rawData]. *)
Definition pass (rawData : RawData) (options : Options) : list Comment :=
  filterComments (processComments rawData {| metaFilters := None |}) options.

(** The entities of [cs] whose id is not in [seen]. *)
Definition notIn (seen : gset Z) (cs : list Comment) : list Comment :=
  List.filter (fun c => negb (bool_decide (c_id c ∈ seen))) cs.

Definition watchForComments (fuel : nat) (fetchPRComments : nat -> option RawData)
    (clock : nat -> Z) (options : Options) : option (Exit * WatchState) :=
  let st := {| seenIds := ∅; lastActivityTime := clock O; pollCount := O;
               fetches := O; trace := [] |} in
  match fetchFiltered fetchPRComments options st with
  | (None, st) => Some (Rejected, st)
  | (Some initialFiltered, st) =>
      let st := markSeen initialFiltered st in
      let st := emit (InitialState initialFiltered) st in
      watchLoop fuel fetchPRComments clock options st
  end.

(** The scenario of the design document: nothing at priming, one inline
    comment from the second fetch on; the clock advances a second per poll. *)
Definition scenarioFetch (k : nat) : option RawData :=
  match k with
  | O => Some {| reviewComments := []; issueComments := []; reviews := [] |}
  | S _ => Some {| reviewComments := [makeReviewComment 1 100 None];
                   issueComments := []; reviews := [] |}
  end.

Definition scenarioClock (k : nat) : Z := 1000 * Z.of_nat k.

Definition scenarioOptions : Options :=
  {| botsOnly := false; humansOnly := false; filter_ := None;
     watchInterval := 1; watchTimeout := 2 |}.

(** The idle scenario: the same entity at every fetch. *)
Definition idleFetch (k : nat) : option RawData :=
  Some {| reviewComments := [makeReviewComment 1 100 None];
          issueComments := []; reviews := [] |}.

(** ** Readings of the options

    The two tests [filterComments] applies to an entity. *)
Definition actorKeeps (options : Options) (c : Comment) : bool :=
  if botsOnly options then c_isBot c
  else if humansOnly options then negb (c_isBot c)
  else true.

Definition stateKeeps (options : Options) (c : Comment) : bool :=
  if str_is (filter_ options) "unresolved" then unresolvedP c
  else if str_is (filter_ options) "unanswered" then unansweredP c
  else true.

(** [nextUrl] ends the [while (nextUrl)] loop: it is [null] or empty. *)
Definition nextLinkFalsy (nextUrl : option jsstring) : Prop :=
  match nextUrl with
  | Some (_ :: _) => False
  | _ => True
  end.

(** No report among the events. *)
Definition noReport (evs : list event) : Prop := forall cs, ~ In (Report cs) evs.

(** The state in which an idle poll leaves the loop. *)
Definition afterIdlePoll (options : Options) (inactiveSeconds : Z) (st : WatchState)
    : WatchState :=
  {| seenIds := seenIds st; lastActivityTime := lastActivityTime st;
     pollCount := S (pollCount st); fetches := S (fetches st);
     trace := trace st ++ [Sleep (watchInterval options); Fetch;
                           NoNewComments (S (pollCount st)) inactiveSeconds] |}.

(** ** Formatting ([truncate]) *)

(** [/\n/g] *)
Definition re_newline : regex := [One (isChar LF)].

(** [s.slice(0, end)] for an integer [end]: a negative [end] counts from the
    end of the string. *)
Definition slice0 (s : jsstring) (e : Z) : jsstring :=
  let len := Z.of_nat (length s) in
  let to := if (e <? 0)%Z then Z.max (len + e) 0 else Z.min e len in
  firstn (Z.to_nat to) s.

Definition truncate (str : option jsstring) (maxLength : Z) : jsstring :=
  match str with
  | None | Some [] => []
  | Some s =>
      let oneLine := trim (replace re_newline [32%N] s) in
      if (Z.of_nat (length oneLine) <=? maxLength)%Z then oneLine
      else slice0 oneLine (maxLength - 3) ++ lit "..."
  end.

(** ** The detail command

    [processed.find((c) => c.id === targetId)], where [targetId] is
    [Number(options.detail)]: an integer, or a number that equals no id
    ([NaN], a fraction), written [None]. *)
Definition findComment (processed : list Comment) (targetId : option Z) : option Comment :=
  match targetId with
  | Some t => List.find (fun c => (c_id c =? t)%Z) processed
  | None => None
  end.

(** ** Argument parsing ([parseArgs])

    The result object of [parseArgs].  [prNumber] is [null] ([None]) or the
    number [Number.parseInt] returned; a number is an integer or [NaN]
    ([None]).  Strings that may be [null] or [undefined] are optional. *)
Record CliOptions := {
  o_command : jsstring;
  o_prNumber : option (option Z);
  o_filter : option jsstring;
  o_replyTo : option jsstring;
  o_replyMessage : option jsstring;
  o_json : bool;
  o_botsOnly : bool;
  o_humansOnly : bool;
  o_detail : option jsstring;
  o_help : bool;
  o_version : bool;
  o_expanded : bool;
  o_watch : bool;
  o_watchInterval : option Z;
  o_watchTimeout : option Z
}.

(** [result.field = v], one function per field that [parseArgs] assigns. *)
Definition set_command (v : jsstring) (r : CliOptions) : CliOptions :=
  {| o_command := v; o_prNumber := o_prNumber r; o_filter := o_filter r;
     o_replyTo := o_replyTo r; o_replyMessage := o_replyMessage r;
     o_json := o_json r; o_botsOnly := o_botsOnly r;
     o_humansOnly := o_humansOnly r; o_detail := o_detail r;
     o_help := o_help r; o_version := o_version r;
     o_expanded := o_expanded r; o_watch := o_watch r;
     o_watchInterval := o_watchInterval r;
     o_watchTimeout := o_watchTimeout r |}.

Definition set_prNumber (v : option (option Z)) (r : CliOptions) : CliOptions :=
  {| o_command := o_command r; o_prNumber := v; o_filter := o_filter r;
     o_replyTo := o_replyTo r; o_replyMessage := o_replyMessage r;
     o_json := o_json r; o_botsOnly := o_botsOnly r;
     o_humansOnly := o_humansOnly r; o_detail := o_detail r;
     o_help := o_help r; o_version := o_version r;
     o_expanded := o_expanded r; o_watch := o_watch r;
     o_watchInterval := o_watchInterval r;
     o_watchTimeout := o_watchTimeout r |}.

Definition set_filter (v : option jsstring) (r : CliOptions) : CliOptions :=
  {| o_command := o_command r; o_prNumber := o_prNumber r; o_filter := v;
     o_replyTo := o_replyTo r; o_replyMessage := o_replyMessage r;
     o_json := o_json r; o_botsOnly := o_botsOnly r;
     o_humansOnly := o_humansOnly r; o_detail := o_detail r;
     o_help := o_help r; o_version := o_version r;
     o_expanded := o_expanded r; o_watch := o_watch r;
     o_watchInterval := o_watchInterval r;
     o_watchTimeout := o_watchTimeout r |}.

Definition set_replyTo (v : option jsstring) (r : CliOptions) : CliOptions :=
  {| o_command := o_command r; o_prNumber := o_prNumber r;
     o_filter := o_filter r; o_replyTo := v;
     o_replyMessage := o_replyMessage r; o_json := o_json r;
     o_botsOnly := o_botsOnly r; o_humansOnly := o_humansOnly r;
     o_detail := o_detail r; o_help := o_help r; o_version := o_version r;
     o_expanded := o_expanded r; o_watch := o_watch r;
     o_watchInterval := o_watchInterval r;
     o_watchTimeout := o_watchTimeout r |}.

Definition set_replyMessage (v : option jsstring) (r : CliOptions) : CliOptions :=
  {| o_command := o_command r; o_prNumber := o_prNumber r;
     o_filter := o_filter r; o_replyTo := o_replyTo r; o_replyMessage := v;
     o_json := o_json r; o_botsOnly := o_botsOnly r;
     o_humansOnly := o_humansOnly r; o_detail := o_detail r;
     o_help := o_help r; o_version := o_version r;
     o_expanded := o_expanded r; o_watch := o_watch r;
     o_watchInterval := o_watchInterval r;
     o_watchTimeout := o_watchTimeout r |}.

Definition set_json (v : bool) (r : CliOptions) : CliOptions :=
  {| o_command := o_command r; o_prNumber := o_prNumber r;
     o_filter := o_filter r; o_replyTo := o_replyTo r;
     o_replyMessage := o_replyMessage r; o_json := v;
     o_botsOnly := o_botsOnly r; o_humansOnly := o_humansOnly r;
     o_detail := o_detail r; o_help := o_help r; o_version := o_version r;
     o_expanded := o_expanded r; o_watch := o_watch r;
     o_watchInterval := o_watchInterval r;
     o_watchTimeout := o_watchTimeout r |}.

Definition set_botsOnly (v : bool) (r : CliOptions) : CliOptions :=
  {| o_command := o_command r; o_prNumber := o_prNumber r;
     o_filter := o_filter r; o_replyTo := o_replyTo r;
     o_replyMessage := o_replyMessage r; o_json := o_json r;
     o_botsOnly := v; o_humansOnly := o_humansOnly r;
     o_detail := o_detail r; o_help := o_help r; o_version := o_version r;
     o_expanded := o_expanded r; o_watch := o_watch r;
     o_watchInterval := o_watchInterval r;
     o_watchTimeout := o_watchTimeout r |}.

Definition set_humansOnly (v : bool) (r : CliOptions) : CliOptions :=
  {| o_command := o_command r; o_prNumber := o_prNumber r;
     o_filter := o_filter r; o_replyTo := o_replyTo r;
     o_replyMessage := o_replyMessage r; o_json := o_json r;
     o_botsOnly := o_botsOnly r; o_humansOnly := v; o_detail := o_detail r;
     o_help := o_help r; o_version := o_version r;
     o_expanded := o_expanded r; o_watch := o_watch r;
     o_watchInterval := o_watchInterval r;
     o_watchTimeout := o_watchTimeout r |}.

Definition set_detail (v : option jsstring) (r : CliOptions) : CliOptions :=
  {| o_command := o_command r; o_prNumber := o_prNumber r;
     o_filter := o_filter r; o_replyTo := o_replyTo r;
     o_replyMessage := o_replyMessage r; o_json := o_json r;
     o_botsOnly := o_botsOnly r; o_humansOnly := o_humansOnly r;
     o_detail := v; o_help := o_help r; o_version := o_version r;
     o_expanded := o_expanded r; o_watch := o_watch r;
     o_watchInterval := o_watchInterval r;
     o_watchTimeout := o_watchTimeout r |}.

Definition set_help (v : bool) (r : CliOptions) : CliOptions :=
  {| o_command := o_command r; o_prNumber := o_prNumber r;
     o_filter := o_filter r; o_replyTo := o_replyTo r;
     o_replyMessage := o_replyMessage r; o_json := o_json r;
     o_botsOnly := o_botsOnly r; o_humansOnly := o_humansOnly r;
     o_detail := o_detail r; o_help := v; o_version := o_version r;
     o_expanded := o_expanded r; o_watch := o_watch r;
     o_watchInterval := o_watchInterval r;
     o_watchTimeout := o_watchTimeout r |}.

Definition set_version (v : bool) (r : CliOptions) : CliOptions :=
  {| o_command := o_command r; o_prNumber := o_prNumber r;
     o_filter := o_filter r; o_replyTo := o_replyTo r;
     o_replyMessage := o_replyMessage r; o_json := o_json r;
     o_botsOnly := o_botsOnly r; o_humansOnly := o_humansOnly r;
     o_detail := o_detail r; o_help := o_help r; o_version := v;
     o_expanded := o_expanded r; o_watch := o_watch r;
     o_watchInterval := o_watchInterval r;
     o_watchTimeout := o_watchTimeout r |}.

Definition set_expanded (v : bool) (r : CliOptions) : CliOptions :=
  {| o_command := o_command r; o_prNumber := o_prNumber r;
     o_filter := o_filter r; o_replyTo := o_replyTo r;
     o_replyMessage := o_replyMessage r; o_json := o_json r;
     o_botsOnly := o_botsOnly r; o_humansOnly := o_humansOnly r;
     o_detail := o_detail r; o_help := o_help r; o_version := o_version r;
     o_expanded := v; o_watch := o_watch r;
     o_watchInterval := o_watchInterval r;
     o_watchTimeout := o_watchTimeout r |}.

Definition set_watch (v : bool) (r : CliOptions) : CliOptions :=
  {| o_command := o_command r; o_prNumber := o_prNumber r;
     o_filter := o_filter r; o_replyTo := o_replyTo r;
     o_replyMessage := o_replyMessage r; o_json := o_json r;
     o_botsOnly := o_botsOnly r; o_humansOnly := o_humansOnly r;
     o_detail := o_detail r; o_help := o_help r; o_version := o_version r;
     o_expanded := o_expanded r; o_watch := v;
     o_watchInterval := o_watchInterval r;
     o_watchTimeout := o_watchTimeout r |}.

Definition set_watchInterval (v : option Z) (r : CliOptions) : CliOptions :=
  {| o_command := o_command r; o_prNumber := o_prNumber r;
     o_filter := o_filter r; o_replyTo := o_replyTo r;
     o_replyMessage := o_replyMessage r; o_json := o_json r;
     o_botsOnly := o_botsOnly r; o_humansOnly := o_humansOnly r;
     o_detail := o_detail r; o_help := o_help r; o_version := o_version r;
     o_expanded := o_expanded r; o_watch := o_watch r; o_watchInterval := v;
     o_watchTimeout := o_watchTimeout r |}.

Definition set_watchTimeout (v : option Z) (r : CliOptions) : CliOptions :=
  {| o_command := o_command r; o_prNumber := o_prNumber r;
     o_filter := o_filter r; o_replyTo := o_replyTo r;
     o_replyMessage := o_replyMessage r; o_json := o_json r;
     o_botsOnly := o_botsOnly r; o_humansOnly := o_humansOnly r;
     o_detail := o_detail r; o_help := o_help r; o_version := o_version r;
     o_expanded := o_expanded r; o_watch := o_watch r;
     o_watchInterval := o_watchInterval r; o_watchTimeout := v |}.

Definition defaultCliOptions : CliOptions :=
  {| o_command := lit "list"; o_prNumber := None; o_filter := None;
     o_replyTo := None; o_replyMessage := None; o_json := false;
     o_botsOnly := false; o_humansOnly := false; o_detail := None;
     o_help := false; o_version := false; o_expanded := false; o_watch := false;
     o_watchInterval := Some 30%Z; o_watchTimeout := Some 600%Z |}.

(** [args[i]] is one of the two labels of a [case]. *)
Definition isArg (a : jsstring) (long short : string) : bool :=
  jsstring_eqb a (lit long) || jsstring_eqb a (lit short).

(** The [switch] on [args[i]]: the new result and how many further arguments
    the case took with [args[++i]] (an index past the end reads
    [undefined]).  [parseInt] is [Number.parseInt(_, 10)]. *)
Definition consume (parseInt : option jsstring -> option Z)
    (a : jsstring) (rest : list jsstring) (r : CliOptions) : CliOptions * nat :=
  if isArg a "--unresolved" "-u" then (set_filter (Some (lit "unresolved")) r, O)
  else if isArg a "--unanswered" "-a" then (set_filter (Some (lit "unanswered")) r, O)
  else if isArg a "--reply" "-r" then
    (set_replyMessage (rest !! 1%nat)
       (set_replyTo (rest !! 0%nat) (set_command (lit "reply") r)), 2%nat)
  else if isArg a "--pr" "-p" then
    (set_prNumber (Some (parseInt (rest !! 0%nat))) r, 1%nat)
  else if isArg a "--json" "-j" then (set_json true r, O)
  else if isArg a "--bots-only" "-b" then (set_botsOnly true r, O)
  else if isArg a "--humans-only" "-H" then (set_humansOnly true r, O)
  else if isArg a "--detail" "-d" then
    (set_detail (rest !! 0%nat) (set_command (lit "detail") r), 1%nat)
  else if isArg a "--watch" "-w" then
    (set_command (lit "watch") (set_watch true r), O)
  else if isArg a "--interval" "-i" then
    (set_watchInterval (parseInt (rest !! 0%nat)) r, 1%nat)
  else if isArg a "--exit-after" "--timeout" then
    (set_watchTimeout (parseInt (rest !! 0%nat)) r, 1%nat)
  else if isArg a "--expanded" "-e" then (set_expanded true r, O)
  else if isArg a "--help" "-h" then (set_help true r, O)
  else if isArg a "--version" "-v" then (set_version true r, O)
  else (r, O).

(** The [for] loop over [args]; [skip] counts the arguments already taken as
    values by the case before. *)
Fixpoint parseFrom (parseInt : option jsstring -> option Z)
    (args : list jsstring) (skip : nat) (r : CliOptions) : CliOptions :=
  match args with
  | [] => r
  | a :: rest =>
      match skip with
      | S skip' => parseFrom parseInt rest skip' r
      | O =>
          let '(r', taken) := consume parseInt a rest r in
          parseFrom parseInt rest taken r'
      end
  end.

Definition parseArgs (parseInt : option jsstring -> option Z) (args : list jsstring)
    : CliOptions :=
  parseFrom parseInt args O defaultCliOptions.

(** The arguments that ask for a filter. *)
Definition asksFilter (a : jsstring) : bool :=
  isArg a "--bots-only" "-b" || isArg a "--humans-only" "-H" ||
  isArg a "--unresolved" "-u" || isArg a "--unanswered" "-a".

(** What every result of [parseArgs] satisfies. *)
Definition wellFormedCli (r : CliOptions) : Prop :=
  (o_filter r = None \/ o_filter r = Some (lit "unresolved") \/
   o_filter r = Some (lit "unanswered")) /\
  (o_command r = lit "list" \/ o_command r = lit "reply" \/
   o_command r = lit "detail" \/ o_command r = lit "watch") /\
  (o_command r = lit "watch" -> o_watch r = true) /\
  (o_command r = lit "list" ->
     o_replyTo r = None /\ o_replyMessage r = None /\ o_detail r = None /\
     o_watch r = false).

(** * Properties *)

(** ** The cases of the test suite *)

Example cleanBody_falsy : cleanBody None = None /\ cleanBody (Some []) = Some [].
Proof. split; reflexivity. Qed.

Example cleanBody_plain :
  cleanBody (Some (lit "This is a normal comment.")) = Some (lit "This is a normal comment.").
Proof. vm_compute. reflexivity. Qed.

Example cleanBody_html_comment :
  cleanBody (Some (lit "before <!-- hidden --> after")) = Some (lit "before  after").
Proof. vm_compute. reflexivity. Qed.

Example cleanBody_bug_id :
  cleanBody (Some (lit "Finding" ++ [LF; LF] ++ lit "<!-- BUGBOT_BUG_ID: d0d24d61 -->"))
  = Some (lit "Finding").
Proof. vm_compute. reflexivity. Qed.

Example cleanBody_additional_locations :
  cleanBody (Some (lit "Finding text" ++ [LF; LF] ++ lit "<details>" ++ [LF] ++
                   lit "<summary>Additional Locations (2)</summary>" ++ [LF; LF] ++
                   lit "- a" ++ [LF; LF] ++ lit "</details>" ++ [LF; LF] ++
                   lit "Rest of comment"))
  = Some (lit "Finding text" ++ [LF; LF] ++ lit "Rest of comment").
Proof. vm_compute. reflexivity. Qed.

Example cleanBody_cursor_buttons :
  cleanBody (Some (lit "Finding text" ++ [LF; LF] ++
                   lit "<p><a href=https://cursor.com/open?data=x target=_blank><img alt=Fix></a>&nbsp;<a href=https://cursor.com/agents?data=x><img alt=Web></a></p>"))
  = Some (lit "Finding text").
Proof. vm_compute. reflexivity. Qed.

Example cleanBody_blank_lines :
  cleanBody (Some (lit "Line 1" ++ [LF; LF; LF; LF; LF] ++ lit "Line 2"))
  = Some (lit "Line 1" ++ [LF; LF] ++ lit "Line 2").
Proof. vm_compute. reflexivity. Qed.

Example cleanBody_other_details :
  let input := lit "<details>" ++ [LF] ++ lit "<summary>Click to expand</summary>" ++
               [LF; LF] ++ lit "Some useful content here." ++ [LF; LF] ++ lit "</details>" in
  cleanBody (Some input) = Some input.
Proof. vm_compute. reflexivity. Qed.

Example cleanBody_other_p :
  cleanBody (Some (lit "<p>This is a regular paragraph.</p>"))
  = Some (lit "<p>This is a regular paragraph.</p>").
Proof. vm_compute. reflexivity. Qed.

Example isBot_cases :
  isBot (Some (lit "cursor[bot]")) = true /\ isBot (Some (lit "dependabot[bot]")) = true /\
  isBot (Some (lit "Copilot")) = true /\ isBot (Some (lit "my-custom-bot")) = true /\
  isBot (Some (lit "github-actions")) = true /\
  isBot (Some (lit "pbakaus")) = false /\ isBot (Some (lit "janedoe")) = false /\
  isBot None = false.
Proof. vm_compute. repeat split. Qed.

Example isMetaComment_cases :
  let meta (user body : string) :=
    isMetaComment (Some (lit user)) (Some (lit body)) DEFAULT_META_FILTERS in
  meta "vercel[bot]"%string "[vc]: deployment status"%string = true /\
  meta "supabase[bot]"%string "[supa]: branch ready"%string = true /\
  meta "cursor[bot]"%string "Cursor Bugbot has reviewed your changes and found 3 issues."%string = true /\
  meta "cursor[bot]"%string "### Skill command blocked by permissions"%string = false /\
  meta "pbakaus"%string "Looks good to me"%string = false /\
  meta "cursor[bot]"%string ""%string = false /\
  isMetaComment (Some (lit "cursor[bot]")) None DEFAULT_META_FILTERS = false.
Proof. vm_compute. repeat split. Qed.

Example processComments_cleans_replies :
  processComments
    {| reviewComments :=
         [makeReviewComment 1 100 None;
          {| rc_id := 2; rc_user := Some (lit "pbakaus");
             rc_body := Some (lit "Reply" ++ [LF; LF] ++ lit "<!-- some metadata -->");
             rc_path := None; rc_line := None; rc_original_line := None;
             rc_diff_hunk := None; rc_created_at := Some 200%Z;
             rc_updated_at := Some 200%Z;
             rc_html_url := []; rc_in_reply_to_id := Some 1%Z |}];
       issueComments := []; reviews := [] |} defaultOptions
  = [mkReviewComment
       [{| r_id := 2; r_user := Some (lit "pbakaus"); r_body := Some (lit "Reply");
           r_createdAt := Some 200%Z; r_isBot := false |}]
       (makeReviewComment 1 100 None)].
Proof. vm_compute. reflexivity. Qed.

Example filterComments_cases :
  let run bots humans state :=
    map c_id (filterComments testComments
                {| botsOnly := bots; humansOnly := humans; filter_ := state;
                   watchInterval := 30; watchTimeout := 600 |}) in
  run true false None = [1; 3]%Z /\
  run false true None = [2]%Z /\
  run false false (Some (lit "unresolved")) = [1]%Z /\
  run false false (Some (lit "unanswered")) = [1]%Z /\
  run true true None = [1; 3]%Z.
Proof. vm_compute. repeat split. Qed.

Example nextLink_cases :
  nextLink (nextHeader "https://api.github.com/x?page=2")
    = Some (lit "https://api.github.com/x?page=2") /\
  nextLink (Some (lit ("<https://api.github.com/x?page=1>; rel=" ++ DQUOTE ++ "prev" ++ DQUOTE
                       ++ ", <https://api.github.com/x?page=3>; rel=" ++ DQUOTE ++ "next"
                       ++ DQUOTE)))
    = Some (lit "https://api.github.com/x?page=3") /\
  nextLink (Some (lit ("<https://api.github.com/x?page=1>; rel=" ++ DQUOTE ++ "prev" ++ DQUOTE)))
    = None /\
  nextLink None = None.
Proof. vm_compute. repeat split. Qed.

(** ** Regular-expression replacement *)

Section Replace.
Variable re : regex.
Variable rep : jsstring.

Lemma replace_fuel_no_match fuel s :
  has_match re s = false -> replace_fuel fuel re rep s = s.
Proof.
  revert s. induction fuel as [|fuel IH]; intros s H; [reflexivity|].
  destruct s as [|c s']; simpl in *.
  - destruct (match_here re []); [discriminate | reflexivity].
  - destruct (match_here re (c :: s')); [discriminate|].
    f_equal. apply IH, H.
Qed.

Lemma replace_no_match s : has_match re s = false -> replace re rep s = s.
Proof. apply replace_fuel_no_match. Qed.

Lemma replace_fuel_enough f1 : forall f2 s,
  (length s < f1)%nat -> (length s < f2)%nat ->
  replace_fuel f1 re rep s = replace_fuel f2 re rep s.
Proof.
  induction f1 as [|f1 IH]; intros f2 s H1 H2; [lia|].
  destruct f2 as [|f2]; [lia|]. simpl.
  destruct (match_here re s) as [rest|].
  - destruct (Nat.ltb_spec (length rest) (length s)).
    + f_equal. apply IH; lia.
    + destruct s as [|c s']; [reflexivity|].
      do 2 f_equal. simpl in *. apply IH; lia.
  - destruct s as [|c s']; [reflexivity|].
    f_equal. simpl in *. apply IH; lia.
Qed.

(** The equation of the scan. *)
Lemma replace_unfold s :
  replace re rep s =
  match match_here re s with
  | Some rest =>
      if (length rest <? length s)%nat then rep ++ replace re rep rest
      else match s with
           | c :: s' => rep ++ c :: replace re rep s'
           | [] => rep
           end
  | None =>
      match s with
      | c :: s' => c :: replace re rep s'
      | [] => []
      end
  end.
Proof.
  unfold replace at 1. simpl.
  destruct (match_here re s) as [rest|].
  - destruct (Nat.ltb_spec (length rest) (length s)).
    + f_equal. apply replace_fuel_enough; lia.
    + destruct s as [|c s']; reflexivity.
  - destruct s as [|c s']; reflexivity.
Qed.
End Replace.

(** The equations of the matcher. *)
Lemma match_here_One p re s :
  match_here (One p :: re) s =
  match s with
  | c :: s' => if p c then match_here re s' else None
  | [] => None
  end.
Proof. reflexivity. Qed.

Lemma match_here_greedy p re s :
  match_here (Many true p :: re) s =
  match s with
  | c :: s' =>
      if p c then
        match match_here (Many true p :: re) s' with
        | Some r => Some r
        | None => match_here re s
        end
      else match_here re s
  | [] => match_here re []
  end.
Proof. destruct s; reflexivity. Qed.

Lemma match_here_lazy p re s :
  match_here (Many false p :: re) s =
  match match_here re s with
  | Some r => Some r
  | None =>
      match s with
      | c :: s' => if p c then match_here (Many false p :: re) s' else None
      | [] => None
      end
  end.
Proof. destruct s; reflexivity. Qed.

(** A match never extends the text. *)
Lemma match_here_length re : forall s rest,
  match_here re s = Some rest -> (length rest <= length s)%nat.
Proof.
  induction re as [|[p|[|] p] re IH].
  - intros s rest [= ->]. lia.
  - intros [|c s'] rest H; rewrite match_here_One in H; [discriminate|].
    destruct (p c); [|discriminate]. apply IH in H. simpl. lia.
  - induction s as [|c s' IHs]; intros rest H; rewrite match_here_greedy in H.
    + apply IH in H. exact H.
    + destruct (p c).
      * destruct (match_here (Many true p :: re) s') as [r|] eqn:E.
        -- injection H as ->. specialize (IHs _ eq_refl). simpl. lia.
        -- apply IH in H. exact H.
      * apply IH in H. exact H.
  - induction s as [|c s' IHs]; intros rest H; rewrite match_here_lazy in H.
    + destruct (match_here re []) eqn:E; [|discriminate].
      injection H as ->. apply IH in E. exact E.
    + destruct (match_here re (c :: s')) eqn:E.
      * injection H as ->. apply IH in E. exact E.
      * destruct (p c); [|discriminate]. apply IHs in H. simpl. lia.
Qed.

(** A pattern that starts with a single-character matcher consumes text. *)
Lemma match_here_One_length p re s rest :
  match_here (One p :: re) s = Some rest -> (length rest < length s)%nat.
Proof.
  rewrite match_here_One. destruct s as [|c s']; [discriminate|].
  destruct (p c); [|discriminate].
  intros H%match_here_length. simpl. lia.
Qed.

(** ** Trimming *)

Lemma dropWhile_suffix {A} (p : A -> bool) s : exists pre, s = pre ++ dropWhile p s.
Proof.
  induction s as [|c s' [pre IH]]; simpl.
  - exists []. reflexivity.
  - destruct (p c).
    + exists (c :: pre). simpl. f_equal. exact IH.
    + exists []. reflexivity.
Qed.

Lemma dropWhile_head {A} (p : A -> bool) s c t : dropWhile p s = c :: t -> p c = false.
Proof.
  induction s as [|a s' IH]; simpl; [discriminate|].
  destruct (p a) eqn:E; [exact IH|]. intros [= <- _]. exact E.
Qed.

Lemma trimEnd_prefix s : exists post, s = trimEnd s ++ post.
Proof.
  induction s as [|c s' [post IH]]; simpl.
  - exists []. reflexivity.
  - destruct (trimEnd s') as [|a t] eqn:E.
    + destruct (isWhiteSpace c).
      * exists (c :: s'). reflexivity.
      * exists s'. reflexivity.
    + exists post. simpl. f_equal. exact IH.
Qed.

Lemma trimEnd_idem s : trimEnd (trimEnd s) = trimEnd s.
Proof.
  induction s as [|c s' IH]; simpl; [reflexivity|].
  destruct (trimEnd s') as [|a t] eqn:E.
  - destruct (isWhiteSpace c) eqn:W; simpl; [reflexivity|]. rewrite W. reflexivity.
  - change (trimEnd (c :: a :: t) = c :: a :: t).
    cbn [trimEnd] in *. rewrite IH. reflexivity.
Qed.

Lemma trimEnd_keeps_head c s :
  isWhiteSpace c = false -> exists t, trimEnd (c :: s) = c :: t.
Proof.
  intros W. simpl. destruct (trimEnd s) as [|a t].
  - rewrite W. eauto.
  - eauto.
Qed.

Lemma trimStart_trim s : trimStart (trim s) = trim s.
Proof.
  unfold trim. destruct (trimStart s) as [|c t] eqn:E; [reflexivity|].
  pose proof (dropWhile_head _ _ _ _ E) as W.
  destruct (trimEnd_keeps_head c t W) as [t' ->].
  unfold trimStart. simpl. rewrite W. reflexivity.
Qed.

Lemma trim_idem s : trim (trim s) = trim s.
Proof.
  unfold trim at 1. rewrite trimStart_trim. unfold trim. apply trimEnd_idem.
Qed.

Lemma trim_infix s : exists pre post, s = pre ++ trim s ++ post.
Proof.
  destruct (dropWhile_suffix isWhiteSpace s) as [pre Hpre].
  destruct (trimEnd_prefix (trimStart s)) as [post Hpost].
  exists pre, post. unfold trim. rewrite <- Hpost. exact Hpre.
Qed.

Lemma trimStart_length s : (length (trimStart s) <= length s)%nat.
Proof.
  destruct (dropWhile_suffix isWhiteSpace s) as [pre H].
  rewrite H at 2. rewrite length_app. unfold trimStart. lia.
Qed.

Lemma trimEnd_length s : (length (trimEnd s) <= length s)%nat.
Proof.
  destruct (trimEnd_prefix s) as [post H].
  rewrite H at 2. rewrite length_app. lia.
Qed.

Lemma trim_length s : (length (trim s) <= length s)%nat.
Proof.
  unfold trim. pose proof (trimEnd_length (trimStart s)).
  pose proof (trimStart_length s). lia.
Qed.

(** ** Blank-line collapsing *)

Lemma match_blank_lines s :
  match_here re_blank_lines s =
  match s with
  | a :: b :: c :: s' =>
      if isChar LF a && isChar LF b && isChar LF c
      then Some (dropWhile (isChar LF) s') else None
  | _ => None
  end.
Proof.
  assert (G : forall t, match_here [Many true (isChar LF)] t = Some (dropWhile (isChar LF) t)).
  { induction t as [|x t IH]; rewrite match_here_greedy; [reflexivity|].
    simpl dropWhile. destruct (isChar LF x); [|reflexivity].
    rewrite IH. reflexivity. }
  unfold re_blank_lines.
  destruct s as [|a [|b [|c s']]]; rewrite !match_here_One;
    repeat match goal with |- context [isChar LF ?x] =>
      is_var x; destruct (isChar LF x); simpl andb end;
    try reflexivity.
  apply G.
Qed.

Lemma isChar_LF c : isChar LF c = true <-> c = LF.
Proof. unfold isChar. apply N.eqb_eq. Qed.

(** A run of three newlines somewhere in the text. *)
Lemma has_blank_lines_iff s :
  has_match re_blank_lines s = true <-> exists a b, s = a ++ LF :: LF :: LF :: b.
Proof.
  induction s as [|x s IH].
  - simpl. split; [discriminate|]. intros (a & b & H). destruct a; discriminate.
  - cbn [has_match]. rewrite match_blank_lines.
    destruct s as [|y [|z s']].
    + split; [intros H; apply IH in H; destruct H as (a & b & H); destruct a; discriminate|].
      intros (a & b & H). destruct a as [|? [|? ?]]; discriminate.
    + split.
      * intros H. apply IH in H. destruct H as (a & b & H).
        destruct a as [|? [|? ?]]; discriminate.
      * intros (a & b & H). destruct a as [|? [|? [|? ?]]]; discriminate.
    + destruct (isChar LF x && isChar LF y && isChar LF z) eqn:E.
      * split; [|reflexivity]. intros _.
        apply andb_prop in E as [E Ez]. apply andb_prop in E as [Ex Ey].
        apply isChar_LF in Ex, Ey, Ez. subst. exists [], s'. reflexivity.
      * rewrite IH. split.
        -- intros (a & b & H). exists (x :: a), b. simpl. f_equal. exact H.
        -- intros (a & b & H). destruct a as [|x' a].
           ++ injection H as -> -> -> _. discriminate.
           ++ injection H as _ H. eauto.
Qed.

Lemma no_blank_lines_infix pre s post :
  has_match re_blank_lines (pre ++ s ++ post) = false ->
  has_match re_blank_lines s = false.
Proof.
  intros H. destruct (has_match re_blank_lines s) eqn:E; [|reflexivity].
  apply has_blank_lines_iff in E as (a & b & ->).
  assert (has_match re_blank_lines (pre ++ (a ++ LF :: LF :: LF :: b) ++ post) = true) as H'.
  { apply has_blank_lines_iff. exists (pre ++ a), (b ++ post).
    rewrite <- !app_assoc. reflexivity. }
  congruence.
Qed.

Lemma collapse_unfold s :
  collapse s =
  match match_here re_blank_lines s with
  | Some rest => LF :: LF :: collapse rest
  | None =>
      match s with
      | c :: s' => c :: collapse s'
      | [] => []
      end
  end.
Proof.
  unfold collapse. rewrite replace_unfold at 1.
  destruct (match_here re_blank_lines s) as [rest|] eqn:E; [|reflexivity].
  apply match_here_One_length in E. apply Nat.ltb_lt in E. rewrite E. reflexivity.
Qed.

Lemma collapse_head1 s :
  (forall t, s <> LF :: t) -> forall t, collapse s <> LF :: t.
Proof.
  intros Hs t. rewrite collapse_unfold, match_blank_lines.
  destruct s as [|a s']; [discriminate|].
  assert (isChar LF a = false) as Ha.
  { destruct (isChar LF a) eqn:E; [|reflexivity].
    apply isChar_LF in E. subst. destruct (Hs s'). reflexivity. }
  rewrite Ha. intros H.
  assert (a = LF) as ->.
  { destruct s' as [|b [|c s'']]; simpl in H; congruence. }
  destruct (Hs s'). reflexivity.
Qed.

Lemma collapse_head2 s :
  (forall t, s <> LF :: LF :: t) -> forall t, collapse s <> LF :: LF :: t.
Proof.
  intros Hs t. rewrite collapse_unfold, match_blank_lines.
  destruct s as [|a [|b s']]; [discriminate| |].
  - rewrite collapse_unfold. simpl. discriminate.
  - assert (isChar LF a && isChar LF b = false) as Hab.
    { destruct (isChar LF a) eqn:Ea, (isChar LF b) eqn:Eb; try reflexivity.
      apply isChar_LF in Ea, Eb. subst. destruct (Hs s'). reflexivity. }
    assert (a :: collapse (b :: s') <> LF :: LF :: t) as Hgoal.
    { intros H. injection H as -> H.
      assert (isChar LF b = false) as Hb by (rewrite <- Hab; reflexivity).
      revert H. apply collapse_head1. intros t' [= -> _]. discriminate. }
    destruct s' as [|c s'']; [exact Hgoal|].
    rewrite Hab. exact Hgoal.
Qed.

Lemma no_triple_cons x out :
  no_triple out -> (x <> LF \/ forall t, out <> LF :: LF :: t) -> no_triple (x :: out).
Proof.
  intros Hout Hx [|x' a] b H.
  - simpl in H. injection H as -> H. destruct Hx as [Hx|Hx]; [congruence|].
    exact (Hx _ H).
  - injection H as _ H. exact (Hout _ _ H).
Qed.

Lemma no_triple_has_match s : no_triple s <-> has_match re_blank_lines s = false.
Proof.
  unfold no_triple. split.
  - intros H. destruct (has_match re_blank_lines s) eqn:E; [|reflexivity].
    apply has_blank_lines_iff in E as (a & b & E). destruct (H _ _ E).
  - intros H a b E.
    assert (has_match re_blank_lines s = true) by (apply has_blank_lines_iff; eauto).
    congruence.
Qed.

Lemma collapse_no_triple_aux n : forall s, (length s < n)%nat -> no_triple (collapse s).
Proof.
  induction n as [|n IH]; intros s Hn; [lia|].
  rewrite collapse_unfold.
  destruct (match_here re_blank_lines s) as [rest|] eqn:E.
  - pose proof (match_here_One_length _ _ _ _ E) as Hlen.
    rewrite match_blank_lines in E.
    destruct s as [|a [|b [|c s']]]; try discriminate.
    destruct (isChar LF a && isChar LF b && isChar LF c); [|discriminate].
    injection E as <-.
    assert (forall t, collapse (dropWhile (isChar LF) s') <> LF :: t) as Hhd.
    { apply collapse_head1. intros t Ht. apply dropWhile_head in Ht. discriminate. }
    apply no_triple_cons; [apply no_triple_cons|].
    + apply IH. lia.
    + right. intros t Ht. exact (Hhd _ Ht).
    + right. intros t [= Ht]. exact (Hhd _ Ht).
  - destruct s as [|a s']; [intros [|? ?] ?; discriminate|].
    apply no_triple_cons; [apply IH; simpl in Hn; lia|].
    destruct (N.eq_dec a LF) as [->|Ha]; [right|left; exact Ha].
    apply collapse_head2. intros t ->.
    rewrite match_blank_lines in E. discriminate.
Qed.

Lemma collapse_no_blank_lines s : has_match re_blank_lines (collapse s) = false.
Proof.
  apply no_triple_has_match. apply (collapse_no_triple_aux (S (length s))). lia.
Qed.

Lemma collapse_length_aux n : forall s,
  (length s < n)%nat -> (length (collapse s) <= length s)%nat.
Proof.
  induction n as [|n IH]; intros s Hn; [lia|].
  rewrite collapse_unfold.
  destruct (match_here re_blank_lines s) as [rest|] eqn:E.
  - pose proof (match_here_One_length _ _ _ _ E) as Hlen.
    rewrite match_blank_lines in E.
    destruct s as [|a [|b [|c s']]]; try discriminate.
    destruct (isChar LF a && isChar LF b && isChar LF c); [|discriminate].
    injection E as <-.
    destruct (dropWhile_suffix (isChar LF) s') as [pre Hpre].
    specialize (IH (dropWhile (isChar LF) s') ltac:(lia)).
    simpl. rewrite Hpre at 2. rewrite length_app. lia.
  - destruct s as [|a s']; [simpl; lia|].
    simpl in *. specialize (IH s' ltac:(lia)). lia.
Qed.

Lemma collapse_length s : (length (collapse s) <= length s)%nat.
Proof. apply (collapse_length_aux (S (length s))). lia. Qed.

(** ** Removing matches shortens the text *)

Section ReplaceLength.
Variable re : regex.
Hypothesis consumes : forall s rest,
  match_here re s = Some rest -> (length rest < length s)%nat.

Lemma replace_unfold_consuming rep s :
  replace re rep s =
  match match_here re s with
  | Some rest => rep ++ replace re rep rest
  | None =>
      match s with
      | c :: s' => c :: replace re rep s'
      | [] => []
      end
  end.
Proof using consumes.
  rewrite replace_unfold at 1.
  destruct (match_here re s) as [rest|] eqn:E; [|reflexivity].
  apply consumes, Nat.ltb_lt in E. rewrite E. reflexivity.
Qed.

Lemma remove_length_aux n : forall s,
  (length s < n)%nat ->
  (length (replace re [] s) <= length s)%nat /\
  (has_match re s = true -> (length (replace re [] s) < length s)%nat).
Proof using consumes.
  induction n as [|n IH]; intros s Hn; [lia|].
  rewrite replace_unfold_consuming.
  destruct s as [|c s'].
  - simpl has_match.
    destruct (match_here re []) as [rest|] eqn:E.
    + apply consumes in E. simpl in E. lia.
    + simpl. split; [lia | discriminate].
  - cbn [has_match].
    destruct (match_here re (c :: s')) as [rest|] eqn:E.
    + apply consumes in E. simpl in *.
      destruct (IH rest ltac:(lia)) as [Hle _]. lia.
    + simpl in *. destruct (IH s' ltac:(lia)) as [Hle Hlt].
      split; [lia|]. intros H. specialize (Hlt H). lia.
Qed.

Lemma remove_length_le s : (length (replace re [] s) <= length s)%nat.
Proof using consumes. apply (remove_length_aux (S (length s))). lia. Qed.

Lemma remove_length_lt s :
  has_match re s = true -> (length (replace re [] s) < length s)%nat.
Proof using consumes. apply (remove_length_aux (S (length s))). lia. Qed.
End ReplaceLength.

Lemma html_comment_consumes s rest :
  match_here re_html_comment s = Some rest -> (length rest < length s)%nat.
Proof. apply match_here_One_length. Qed.

Lemma additional_locations_consumes s rest :
  match_here re_additional_locations s = Some rest -> (length rest < length s)%nat.
Proof. apply match_here_One_length. Qed.

Lemma cursor_link_consumes s rest :
  match_here re_cursor_link s = Some rest -> (length rest < length s)%nat.
Proof. apply match_here_One_length. Qed.

(** ** Body cleanup *)

Lemma cleanBody_Some s : cleanBody (Some s) = Some (cleaned_text s).
Proof. destruct s; reflexivity. Qed.

Lemma cleaned_text_no_blank_lines s : has_match re_blank_lines (cleaned_text s) = false.
Proof.
  unfold cleaned_text.
  match goal with |- context [trim ?x] =>
    destruct (trim_infix x) as (pre & post & H);
    pose proof (collapse_no_blank_lines
      (replace re_cursor_link [] (replace re_additional_locations []
         (replace re_html_comment [] s)))) as Hc
  end.
  rewrite H in Hc. exact (no_blank_lines_infix _ _ _ Hc).
Qed.

(** Text without any match of the four patterns is only trimmed. *)
Lemma cleaned_text_no_match s :
  boilerplate_free s -> has_match re_blank_lines s = false ->
  cleaned_text s = trim s.
Proof.
  intros (H1 & H2 & H3) H4. unfold cleaned_text, collapse.
  rewrite (replace_no_match _ _ _ H1), (replace_no_match _ _ _ H2),
    (replace_no_match _ _ _ H3), (replace_no_match _ _ _ H4).
  reflexivity.
Qed.

Lemma cleaned_text_fixpoint s :
  boilerplate_free (cleaned_text s) -> cleaned_text (cleaned_text s) = cleaned_text s.
Proof.
  intros H. rewrite (cleaned_text_no_match _ H (cleaned_text_no_blank_lines s)).
  unfold cleaned_text. apply trim_idem.
Qed.

(** Conversely, a text left unchanged by the cleanup has no match left. *)
Lemma cleaned_text_unchanged s : cleaned_text s = s -> boilerplate_free s.
Proof.
  intros H.
  pose proof (remove_length_le _ html_comment_consumes s) as L1.
  pose proof (remove_length_le _ additional_locations_consumes
                (replace re_html_comment [] s)) as L2.
  pose proof (remove_length_le _ cursor_link_consumes
                (replace re_additional_locations [] (replace re_html_comment [] s))) as L3.
  pose proof (collapse_length (replace re_cursor_link []
                (replace re_additional_locations [] (replace re_html_comment [] s)))) as L4.
  pose proof (trim_length (collapse (replace re_cursor_link []
                (replace re_additional_locations [] (replace re_html_comment [] s))))) as L5.
  fold (cleaned_text s) in L5. rewrite H in L5.
  assert (has_match re_html_comment s = false) as H1.
  { destruct (has_match re_html_comment s) eqn:E; [|reflexivity].
    pose proof (remove_length_lt _ html_comment_consumes s E). lia. }
  rewrite (replace_no_match _ _ _ H1) in *.
  assert (has_match re_additional_locations s = false) as H2.
  { destruct (has_match re_additional_locations s) eqn:E; [|reflexivity].
    pose proof (remove_length_lt _ additional_locations_consumes s E). lia. }
  rewrite (replace_no_match _ _ _ H2) in *.
  assert (has_match re_cursor_link s = false) as H3.
  { destruct (has_match re_cursor_link s) eqn:E; [|reflexivity].
    pose proof (remove_length_lt _ cursor_link_consumes s E). lia. }
  repeat split; assumption.
Qed.

(** C9, as stated, fails: a text without any HTML comment, targeted
    [<details>] block or targeted [<p>] block is still changed inside when it
    holds three newlines in a row; the sanitizer does more than trim it. *)
Lemma cleanBody_marker_free_not_only_trimmed :
  let T := lit "a" ++ [LF; LF; LF] ++ lit "b" in
  boilerplate_free T /\
  cleanBody (Some T) = Some (lit "a" ++ [LF; LF] ++ lit "b") /\
  cleanBody (Some T) <> Some (trim T).
Proof.
  vm_compute. repeat split; discriminate.
Qed.

(** C9 (amended): for every text with no match of the three boilerplate
    patterns and no run of three or more newlines, the sanitizer returns the
    text with its leading and trailing white space trimmed, and nothing
    else changed. *)
Theorem cleanBody_marker_free (T : jsstring) :
  boilerplate_free T ->
  has_match re_blank_lines T = false ->
  cleanBody (Some T) = Some (trim T).
Proof.
  intros Hfree Hnl. rewrite cleanBody_Some.
  f_equal. apply cleaned_text_no_match; assumption.
Qed.

Lemma cleanBody_marker_free_witness :
  let T := lit "  <p>Looks good</p> <details>see" ++ [LF; LF] ++ lit "notes</details> " in
  boilerplate_free T /\ has_match re_blank_lines T = false /\
  cleanBody (Some T) = Some (trim T).
Proof.
  intros T.
  assert (boilerplate_free T) as H1 by (vm_compute; repeat split; reflexivity).
  assert (has_match re_blank_lines T = false) as H2 by (vm_compute; reflexivity).
  split; [exact H1|]. split; [exact H2|].
  exact (cleanBody_marker_free T H1 H2).
Defined.

(** C1, as stated, fails: removing the inner comment of a nested marker
    leaves a complete comment behind, which a second pass removes. *)
Lemma cleanBody_not_idempotent :
  let T := lit "<!-<!---->- x -->" in
  cleanBody (Some T) = Some (lit "<!-- x -->") /\
  cleanBody (cleanBody (Some T)) = Some [] /\
  cleanBody (cleanBody (Some T)) <> cleanBody (Some T).
Proof.
  vm_compute. repeat split; discriminate.
Qed.

(** C1 (amended): for every body whose sanitized text contains no match of
    the three boilerplate patterns, applying the sanitizer to its own output
    yields the same output. *)
Theorem cleanBody_idempotent_on_clean_output (body : option jsstring) :
  (forall R, cleanBody body = Some R -> boilerplate_free R) ->
  cleanBody (cleanBody body) = cleanBody body.
Proof.
  destruct body as [T|]; [|reflexivity].
  rewrite cleanBody_Some. intros H.
  rewrite cleanBody_Some. f_equal.
  apply cleaned_text_fixpoint. apply H. reflexivity.
Qed.

Lemma cleanBody_idempotent_on_clean_output_witness :
  let body := Some (lit " Finding <!-- id: 1 -->" ++ [LF; LF; LF; LF] ++
                    lit "<P><A href=x.cursor.com>Fix</a></p> <p>done</p>") in
  (forall R, cleanBody body = Some R -> boilerplate_free R) /\
  cleanBody (cleanBody body) = cleanBody body.
Proof.
  intros body.
  assert (forall R, cleanBody body = Some R -> boilerplate_free R) as H.
  { intros R HR. vm_compute in HR. injection HR as <-.
    vm_compute. repeat split; reflexivity. }
  split; [exact H|].
  exact (cleanBody_idempotent_on_clean_output body H).
Defined.

(** The condition is the weakest one: a second pass that changes nothing
    means no boilerplate match was left. *)
Lemma cleanBody_idempotent_only_on_clean_output (T R : jsstring) :
  cleanBody (Some T) = Some R ->
  cleanBody (Some R) = Some R ->
  boilerplate_free R.
Proof.
  intros _. rewrite cleanBody_Some. intros [= H].
  apply cleaned_text_unchanged, H.
Qed.

(** ** Sorting *)

Section Sort.
Context {A : Type} (cmp : A -> A -> option Z).

Lemma sort_insert_perm x l : Permutation (sort_insert cmp x l) (x :: l).
Proof.
  induction l as [|y l IH]; simpl; [reflexivity|].
  destruct (0 <? sortCompare (cmp x y))%Z; [|reflexivity].
  rewrite IH. apply perm_swap.
Qed.

Lemma sort_perm l : Permutation (sort cmp l) l.
Proof.
  induction l as [|x l IH]; simpl; [reflexivity|].
  rewrite sort_insert_perm. apply perm_skip, IH.
Qed.

Lemma sort_In x l : In x (sort cmp l) <-> In x l.
Proof.
  split; apply Permutation_in; [|symmetry]; apply sort_perm.
Qed.
End Sort.

Lemma dated_cons x l : dated (x :: l) <-> c_createdAt x <> None /\ dated l.
Proof.
  unfold dated. split.
  - intros H. split; [apply H; left; reflexivity | intros e He; apply H; right; exact He].
  - intros [Hx Hl] e [<-|He]; [exact Hx | apply Hl, He].
Qed.

Lemma dated_perm l l' : Permutation l l' -> dated l -> dated l'.
Proof.
  intros Hp H e He. apply H. apply (Permutation_in _ (Permutation_sym Hp)), He.
Qed.

Lemma newestFirst_trans a b c : newestFirst a b -> newestFirst b c -> newestFirst a c.
Proof.
  unfold newestFirst.
  destruct (c_createdAt a), (c_createdAt b), (c_createdAt c); try tauto. lia.
Qed.

Lemma sort_insert_newestFirst x l :
  c_createdAt x <> None -> dated l ->
  StronglySorted newestFirst l ->
  StronglySorted newestFirst (sort_insert byDateDesc x l).
Proof.
  intros Hx Hd Hs. induction Hs as [|y l Hl IH Hy]; simpl.
  - constructor; constructor.
  - apply dated_cons in Hd as [Hdy Hd].
    destruct (c_createdAt x) as [tx|] eqn:Ex; [|destruct Hx; reflexivity].
    destruct (c_createdAt y) as [ty|] eqn:Ey; [|destruct Hdy; reflexivity].
    unfold byDateDesc at 1. rewrite Ex, Ey. simpl sortCompare.
    destruct (Z.ltb_spec 0 (ty - tx)).
    + constructor; [apply IH, Hd|].
      apply List.Forall_forall. intros z Hz.
      apply (Permutation_in _ (sort_insert_perm byDateDesc x l)) in Hz.
      destruct Hz as [<-|Hz].
      * unfold newestFirst. rewrite Ex, Ey. lia.
      * rewrite List.Forall_forall in Hy. apply Hy, Hz.
    + constructor; [constructor; assumption|].
      assert (newestFirst x y) as Hxy by (unfold newestFirst; rewrite Ex, Ey; lia).
      constructor; [exact Hxy|].
      rewrite List.Forall_forall in *. intros z Hz.
      apply (newestFirst_trans _ _ _ Hxy), Hy, Hz.
Qed.

(** When every creation time parses, the sorted sequence is newest first. *)
Lemma sort_newestFirst l :
  dated l -> StronglySorted newestFirst (sort byDateDesc l).
Proof.
  induction l as [|x l IH]; intros Hd; simpl; [constructor|].
  apply dated_cons in Hd as [Hx Hd].
  apply sort_insert_newestFirst; [exact Hx | | apply IH, Hd].
  apply (dated_perm l); [symmetry; apply sort_perm | exact Hd].
Qed.

(** The insertion never lets two entities created at the same time pass each
    other. *)
Lemma sort_insert_same_time t x l :
  createdAtTime t (sort_insert byDateDesc x l) = createdAtTime t (x :: l).
Proof.
  unfold createdAtTime. induction l as [|y l IH]; [reflexivity|].
  cbn [sort_insert]. unfold byDateDesc at 1.
  destruct (c_createdAt y) as [ty|] eqn:Ey; [|reflexivity].
  destruct (c_createdAt x) as [tx|] eqn:Ex; [|reflexivity].
  simpl sortCompare.
  destruct (Z.ltb_spec 0 (ty - tx)); [|reflexivity].
  cbn [List.filter] in *. rewrite IH, Ex, Ey.
  destruct (decide (Some tx = Some t)) as [E1|E1], (decide (Some ty = Some t)) as [E2|E2].
  - exfalso. assert (tx = ty) by congruence. lia.
  - rewrite (bool_decide_true _ E1), (bool_decide_false _ E2). reflexivity.
  - rewrite (bool_decide_false _ E1), (bool_decide_true _ E2). reflexivity.
  - rewrite (bool_decide_false _ E1), (bool_decide_false _ E2). reflexivity.
Qed.

Lemma sort_stable t l :
  createdAtTime t (sort byDateDesc l) = createdAtTime t l.
Proof.
  induction l as [|x l IH]; [reflexivity|].
  cbn [sort fold_right]. rewrite sort_insert_same_time.
  unfold createdAtTime in *. cbn [List.filter]. fold (sort byDateDesc l).
  rewrite IH. reflexivity.
Qed.

(** Two stable arrangements, newest first, of the same dated entities are
    equal: with creation times that all parse the result of the sort does not
    depend on the engine. *)
Lemma stable_sorted_unique (s1 : list Comment) : forall s2,
  dated s1 ->
  StronglySorted newestFirst s1 -> StronglySorted newestFirst s2 ->
  Permutation s1 s2 ->
  (forall t, createdAtTime t s1 = createdAtTime t s2) ->
  s1 = s2.
Proof.
  induction s1 as [|x s1 IH]; intros s2 Hd H1 H2 Hp Hst.
  - apply Permutation_nil in Hp. congruence.
  - destruct s2 as [|y s2]; [symmetry in Hp; apply Permutation_nil in Hp; discriminate|].
    apply dated_cons in Hd as [Hx Hd].
    inversion H1 as [|? ? H1' Hx1]; subst. inversion H2 as [|? ? H2' Hy2]; subst.
    rewrite List.Forall_forall in Hx1, Hy2.
    destruct (c_createdAt x) as [tx|] eqn:Ex; [|destruct Hx; reflexivity].
    assert (y = x) as ->.
    { assert (In y (x :: s1)) as [E|Hin]
        by (apply (Permutation_in _ (Permutation_sym Hp)); left; reflexivity);
        [congruence|].
      assert (In x (y :: s2)) as [E|Hin']
        by (apply (Permutation_in _ Hp); left; reflexivity); [congruence|].
      pose proof (Hx1 _ Hin) as Hxy. pose proof (Hy2 _ Hin') as Hyx.
      unfold newestFirst in Hxy, Hyx. rewrite Ex in Hxy, Hyx.
      destruct (c_createdAt y) as [ty|] eqn:Ey; [|destruct Hxy].
      assert (ty = tx) as -> by lia.
      specialize (Hst tx). unfold createdAtTime in Hst. cbn [List.filter] in Hst.
      rewrite Ex, Ey, (bool_decide_true _ eq_refl) in Hst. congruence. }
    f_equal. apply IH; try assumption.
    + exact (Permutation_cons_inv Hp).
    + intros t. specialize (Hst t). unfold createdAtTime in *.
      cbn [List.filter] in Hst.
      destruct (bool_decide (c_createdAt x = Some t)); congruence.
Qed.

Lemma sort_is_the_stable_sort l s :
  dated l ->
  Permutation s l -> StronglySorted newestFirst s ->
  (forall t, createdAtTime t s = createdAtTime t l) ->
  s = sort byDateDesc l.
Proof.
  intros Hd Hp Hs Hst. apply stable_sorted_unique; try assumption.
  - apply (dated_perm l); [symmetry; exact Hp | exact Hd].
  - apply sort_newestFirst, Hd.
  - rewrite Hp. symmetry. apply sort_perm.
  - intros t. rewrite Hst. symmetry. apply sort_stable.
Qed.

(** ** The loops of [processComments] *)

Lemma fold_pushReviewComment mf m rcs : forall acc,
  fold_left (pushReviewComment mf m) rcs acc =
  acc ++ map (fun c => mkReviewComment (default [] (m !! rc_id c)) c)
             (List.filter (isRoot mf) rcs).
Proof.
  induction rcs as [|c rcs IH]; intros acc; simpl.
  - rewrite app_nil_r. reflexivity.
  - rewrite IH. unfold pushReviewComment, isRoot.
    destruct (truthyZ (rc_in_reply_to_id c)); [reflexivity|].
    destruct (isMetaComment _ _ _); [reflexivity|].
    simpl. rewrite <- app_assoc. reflexivity.
Qed.

Lemma fold_pushIssueComment mf ics : forall acc,
  fold_left (pushIssueComment mf) ics acc =
  acc ++ map mkIssueComment (List.filter (keepIssueComment mf) ics).
Proof.
  induction ics as [|c ics IH]; intros acc; simpl.
  - rewrite app_nil_r. reflexivity.
  - rewrite IH. unfold pushIssueComment, keepIssueComment.
    destruct (isMetaComment _ _ _); [reflexivity|].
    simpl. rewrite <- app_assoc. reflexivity.
Qed.

Lemma fold_pushReview mf rvs : forall acc,
  fold_left (pushReview mf) rvs acc =
  acc ++ map mkReview (List.filter (keepReview mf) rvs).
Proof.
  induction rvs as [|c rvs IH]; intros acc; simpl.
  - rewrite app_nil_r. reflexivity.
  - rewrite IH. unfold pushReview, keepReview.
    destruct (isMetaComment _ _ _); [reflexivity|].
    destruct (blankBody _); [reflexivity|].
    simpl. rewrite <- app_assoc. reflexivity.
Qed.

(** What [repliesMap.get(k) || []] holds after the first loop. *)
Lemma fold_addReply k rcs : forall m : gmap Z (list Reply),
  default [] (fold_left addReply rcs m !! k) =
  default [] (m !! k) ++ map mkReply (List.filter (isReplyTo k) rcs).
Proof.
  induction rcs as [|c rcs IH]; intros m; simpl.
  - rewrite app_nil_r. reflexivity.
  - rewrite IH. unfold addReply, isReplyTo.
    destruct (rc_in_reply_to_id c) as [parent|] eqn:E; [|reflexivity].
    destruct (truthyZ (Some parent)) eqn:T; [|reflexivity].
    simpl andb. destruct (decide (parent = k)) as [->|Hne].
    + rewrite bool_decide_true by reflexivity.
      rewrite lookup_insert_eq. simpl.
      destruct (m !! k) as [rs|] eqn:Em.
      * rewrite Em. simpl. rewrite <- app_assoc. reflexivity.
      * rewrite lookup_insert_eq. reflexivity.
    + rewrite bool_decide_false by congruence.
      rewrite lookup_insert_ne by exact Hne.
      destruct (m !! parent); [reflexivity|].
      rewrite lookup_insert_ne by exact Hne. reflexivity.
Qed.

Lemma buildRepliesMap_lookup k rcs :
  default [] (buildRepliesMap rcs !! k) = map mkReply (List.filter (isReplyTo k) rcs).
Proof.
  unfold buildRepliesMap. rewrite fold_addReply, lookup_empty. reflexivity.
Qed.

Lemma processComments_emitted data options :
  processComments data options = sort byDateDesc (emitted data options).
Proof.
  unfold processComments, emitted.
  rewrite fold_pushReview, fold_pushIssueComment, fold_pushReviewComment.
  simpl. rewrite <- app_assoc. do 2 f_equal.
  apply map_ext. intros c. rewrite buildRepliesMap_lookup. reflexivity.
Qed.

Lemma filter_all {A} (p : A -> bool) l :
  (forall x, In x l -> p x = true) -> List.filter p l = l.
Proof.
  induction l as [|x l IH]; intros H; simpl; [reflexivity|].
  rewrite (H x (or_introl eq_refl)). f_equal. apply IH. intros y Hy. apply H. right. exact Hy.
Qed.

Lemma filter_none {A} (p : A -> bool) l :
  (forall x, In x l -> p x = false) -> List.filter p l = [].
Proof.
  induction l as [|x l IH]; intros H; simpl; [reflexivity|].
  rewrite (H x (or_introl eq_refl)). apply IH. intros y Hy. apply H. right. exact Hy.
Qed.

(** A sequence sorted newest first is the only arrangement of its elements
    when their creation times are pairwise different. *)
Lemma newestFirst_unique (t : list Comment) : forall o,
  StronglySorted strictlyNewer t ->
  StronglySorted newestFirst o ->
  Permutation o t ->
  o = t.
Proof.
  induction t as [|x t IH]; intros o Ht Ho Hp.
  - apply Permutation_nil. symmetry. exact Hp.
  - destruct o as [|y o]; [apply Permutation_nil in Hp; discriminate|].
    inversion Ht as [|? ? Ht' Hx]; subst. inversion Ho as [|? ? Ho' Hy]; subst.
    rewrite List.Forall_forall in Hx, Hy.
    assert (y = x) as ->.
    { assert (In y (x :: t)) as [E|Hin]
        by (apply (Permutation_in _ Hp); left; reflexivity); [congruence|].
      assert (In x (y :: o)) as [E|Hin']
        by (apply (Permutation_in _ (Permutation_sym Hp)); left; reflexivity);
        [congruence|].
      specialize (Hx _ Hin). specialize (Hy _ Hin').
      unfold newestFirst, strictlyNewer in *.
      destruct (c_createdAt x), (c_createdAt y); try tauto. lia. }
    f_equal. apply IH; [assumption..|].
    exact (Permutation_cons_inv Hp).
Qed.

(** The order of the output when every emitted entity has a creation time
    that parses. *)
Lemma processComments_sorted_when_dated data options :
  dated (processComments data options) ->
  StronglySorted newestFirst (processComments data options).
Proof.
  rewrite processComments_emitted. intros Hd. apply sort_newestFirst.
  apply (dated_perm _ _ (sort_perm byDateDesc _)), Hd.
Qed.

(** Three emitted inline comments with parsable creation times t1 < t2 < t3,
    received in any order, are listed t3, t2, t1. *)
Lemma processComments_three_inline options c1 c2 c3 t1 t2 t3 received :
  let mf := default DEFAULT_META_FILTERS (metaFilters options) in
  isRoot mf c1 = true -> isRoot mf c2 = true -> isRoot mf c3 = true ->
  rc_created_at c1 = Some t1 -> rc_created_at c2 = Some t2 ->
  rc_created_at c3 = Some t3 ->
  (t1 < t2)%Z -> (t2 < t3)%Z ->
  Permutation received [c1; c2; c3] ->
  processComments
    {| reviewComments := received; issueComments := []; reviews := [] |} options
  = [mkReviewComment [] c3; mkReviewComment [] c2; mkReviewComment [] c1].
Proof.
  intros mf R1 R2 R3 E1 E2 E3 H12 H23 Hp.
  assert (forall c, In c received -> isRoot mf c = true) as Hroot.
  { intros c Hc. apply (Permutation_in _ Hp) in Hc.
    destruct Hc as [<-|[<-|[<-|[]]]]; assumption. }
  assert (Permutation
            (emitted {| reviewComments := received; issueComments := [];
                        reviews := [] |} options)
            [mkReviewComment [] c3; mkReviewComment [] c2; mkReviewComment [] c1])
    as Hperm.
  { unfold emitted. simpl. fold mf.
    rewrite app_nil_r, (filter_all _ _ Hroot).
    rewrite (map_ext_in _ (mkReviewComment [])).
    - rewrite Hp.
      exact (Permutation_rev (map (mkReviewComment []) [c1; c2; c3])).
    - intros c Hc. f_equal. rewrite filter_none; [reflexivity|].
      intros c' Hc'. apply Hroot in Hc'. unfold isRoot, isReplyTo in *.
      destruct (truthyZ (rc_in_reply_to_id c')); [discriminate | reflexivity]. }
  rewrite processComments_emitted.
  apply newestFirst_unique.
  - repeat constructor; unfold strictlyNewer; simpl; rewrite ?E1, ?E2, ?E3; lia.
  - apply sort_newestFirst. apply (dated_perm _ _ (Permutation_sym Hperm)).
    intros e [<-|[<-|[<-|[]]]]; simpl; congruence.
  - rewrite sort_perm. exact Hperm.
Qed.

Example processComments_three_inline_example :
  processComments
    {| reviewComments := [makeReviewComment 2 200 None; makeReviewComment 1 100 None;
                          makeReviewComment 3 300 None];
       issueComments := []; reviews := [] |} defaultOptions
  = [mkReviewComment [] (makeReviewComment 3 300 None);
     mkReviewComment [] (makeReviewComment 2 200 None);
     mkReviewComment [] (makeReviewComment 1 100 None)].
Proof.
  apply (processComments_three_inline defaultOptions
           (makeReviewComment 1 100 None) (makeReviewComment 2 200 None)
           (makeReviewComment 3 300 None) 100 200 300).
  - reflexivity.
  - reflexivity.
  - reflexivity.
  - reflexivity.
  - reflexivity.
  - reflexivity.
  - lia.
  - lia.
  - apply perm_swap.
Defined.

(** C6: the sequence returned by normalization is not always sorted by
    [createdAt], newest first.  A verdict that is still pending has no
    [submitted_at]; its creation time does not parse, every comparison with it
    counts as a tie, and it keeps the entities around it apart.  With one
    inline comment created at time 100, a pending verdict with a body and a
    verdict submitted at time 500, the output is in the order in which the
    entities were collected: the comment of time 100 comes before the verdict
    of time 500. *)
Theorem processComments_pending_review_not_sorted :
  let inline := makeReviewComment 1 100 None in
  let pending := pendingReview 7 "Draft of my review" in
  let submitted := makeReview 8 500 "COMMENTED" (Some (lit "Looks fine")) in
  let out :=
    processComments
      {| reviewComments := [inline]; issueComments := [];
         reviews := [pending; submitted] |} defaultOptions in
  out = [mkReviewComment [] inline; mkReview pending; mkReview submitted] /\
  map c_createdAt out = [Some 100%Z; None; Some 500%Z] /\
  ~ StronglySorted newestFirst out /\
  ~ StronglySorted newestFirst
      (List.filter (fun e => bool_decide (c_createdAt e <> None)) out).
Proof.
  assert (forall a b : Comment, c_createdAt a = Some 100%Z ->
            c_createdAt b = Some 500%Z -> ~ newestFirst a b) as Hnot.
  { intros a b Ea Eb. unfold newestFirst. rewrite Ea, Eb. lia. }
  split; [vm_compute; reflexivity|].
  split; [vm_compute; reflexivity|].
  split.
  - intros Hs. apply StronglySorted_inv in Hs as [_ Hall].
    apply Forall_inv_tail, Forall_inv in Hall. revert Hall. apply Hnot; reflexivity.
  - intros Hs. apply StronglySorted_inv in Hs as [_ Hall].
    apply Forall_inv in Hall. revert Hall. apply Hnot; reflexivity.
Qed.

(** ** Review verdicts *)

Lemma trimEnd_nil_iff s : trimEnd s = [] <-> forallb isWhiteSpace s = true.
Proof.
  induction s as [|c s IH]; simpl; [tauto|].
  destruct (trimEnd s) as [|a t].
  - destruct (isWhiteSpace c); simpl.
    + rewrite <- IH. tauto.
    + split; discriminate.
  - split; [discriminate|]. intros H. apply andb_prop in H as [_ H].
    apply IH in H. discriminate.
Qed.

Lemma trimStart_nil_iff s : trimStart s = [] <-> forallb isWhiteSpace s = true.
Proof.
  unfold trimStart. induction s as [|c s IH]; simpl; [tauto|].
  destruct (isWhiteSpace c); simpl; [exact IH|]. split; discriminate.
Qed.

Lemma trim_nil_iff s : trim s = [] <-> forallb isWhiteSpace s = true.
Proof.
  unfold trim. rewrite trimEnd_nil_iff. split.
  - intros H. destruct (trimStart s) as [|c t] eqn:E.
    + apply trimStart_nil_iff, E.
    + pose proof (dropWhile_head _ _ _ _ E) as W. simpl in H.
      rewrite W in H. discriminate.
  - intros H. apply trimStart_nil_iff in H. rewrite H. reflexivity.
Qed.

Lemma blankBody_noText body : blankBody body = true <-> noText body.
Proof.
  destruct body as [b|]; simpl; [|tauto].
  rewrite <- trim_nil_iff. destruct (trim b); split; congruence.
Qed.

Lemma filter_perm {A} (p : A -> bool) l l' :
  Permutation l l' -> Permutation (List.filter p l) (List.filter p l').
Proof.
  induction 1 as [|x l l' _ IH|x y l|l l' l'' _ IH1 _ IH2]; simpl.
  - constructor.
  - destruct (p x); [constructor|]; exact IH.
  - destruct (p x), (p y); try reflexivity. apply perm_swap.
  - etransitivity; eassumption.
Qed.

Lemma processComments_In data options e :
  In e (processComments data options) <-> In e (emitted data options).
Proof. rewrite processComments_emitted. apply sort_In. Qed.

(** Where an entity of the output comes from. *)
Lemma emitted_inv data options e :
  In e (emitted data options) ->
  let mf := default DEFAULT_META_FILTERS (metaFilters options) in
  (exists root, In root (reviewComments data) /\ isRoot mf root = true /\
     e = mkReviewComment
           (map mkReply (List.filter (isReplyTo (rc_id root)) (reviewComments data))) root)
  \/ (exists ic, In ic (issueComments data) /\ keepIssueComment mf ic = true /\
        e = mkIssueComment ic)
  \/ (exists rv, In rv (reviews data) /\ keepReview mf rv = true /\ e = mkReview rv).
Proof.
  intros H mf. unfold emitted in H. fold mf in H.
  rewrite !in_app_iff, !in_map_iff in H.
  destruct H as [(c & <- & Hc)|[(c & <- & Hc)|(c & <- & Hc)]];
    apply filter_In in Hc as [Hin Hk]; [left | right; left | right; right]; eauto.
Qed.

(** A text is meta when one of the filters accepts it; a text that is absent
    or empty is never meta. *)
Lemma isMetaComment_spec user body mf :
  isMetaComment user body mf = true <->
  exists f b, In f mf /\ body = Some b /\ b <> [] /\ f user b = true.
Proof.
  unfold isMetaComment. destruct body as [[|c b]|].
  - split; [discriminate|]. intros (f & b & _ & E & Hne & _). congruence.
  - rewrite existsb_exists. split.
    + intros (f & Hf & Hfb). exists f, (c :: b). repeat split; [assumption | discriminate | assumption].
    + intros (f & b' & Hf & E & _ & Hfb). exists f. split; [exact Hf | congruence].
  - split; [discriminate|]. intros (f & b & _ & E & _). discriminate.
Qed.

(** C8: the review entities of the output are the verdicts that are neither
    meta nor without written text, each emitted once; a verdict is skipped
    exactly when one of the meta predicates in force accepts its author and
    body, or its body is absent, empty or white space only, and no review
    entity of the output then carries its id (ids taken unique); an emitted
    verdict
    is resolved exactly when its state is APPROVED or DISMISSED (the API's
    spelling of approved and dismissed); every inline and general comment of
    the output is unresolved. *)
Theorem processComments_review_verdicts (data : RawData) (options : ProcessOptions) :
  let mf := default DEFAULT_META_FILTERS (metaFilters options) in
  let out := processComments data options in
  Permutation (List.filter isReviewType out)
              (map mkReview (List.filter (keepReview mf) (reviews data))) /\
  (forall rv, keepReview mf rv = false <->
     (exists f b, In f mf /\ rv_body rv = Some b /\ f (rv_user rv) b = true) \/
     noText (rv_body rv)) /\
  (forall rv, In rv (reviews data) -> keepReview mf rv = false ->
     (forall rv', In rv' (reviews data) -> rv_id rv' = rv_id rv -> rv' = rv) ->
     forall e, In e out -> c_type e = review -> c_id e <> rv_id rv) /\
  (forall rv, c_isResolved (mkReview rv) = true <->
     rv_state rv = lit "APPROVED" \/ rv_state rv = lit "DISMISSED") /\
  (forall e, In e out -> c_type e <> review -> c_isResolved e = false).
Proof.
  intros mf out. split; [|split; [|split; [|split]]].
  - unfold out. rewrite processComments_emitted.
    rewrite (filter_perm _ _ _ (sort_perm byDateDesc _)).
    unfold emitted. fold mf. rewrite !List.filter_app.
    rewrite (filter_none isReviewType (map _ (List.filter (isRoot mf) _))).
    2:{ intros x Hx. apply in_map_iff in Hx as (c & <- & _). reflexivity. }
    rewrite (filter_none isReviewType (map mkIssueComment _)).
    2:{ intros x Hx. apply in_map_iff in Hx as (c & <- & _). reflexivity. }
    rewrite filter_all; [reflexivity|].
    intros x Hx. apply in_map_iff in Hx as (c & <- & _). reflexivity.
  - intros rv. unfold keepReview. rewrite <- blankBody_noText. split.
    + destruct (isMetaComment _ _ _) eqn:Em.
      * intros _. left. apply isMetaComment_spec in Em as (f & b & Hf & E & _ & Hfb).
        exists f, b. auto.
      * destruct (blankBody _); [auto | discriminate].
    + intros [(f & b & Hf & E & Hfb)|Hb].
      * destruct b as [|c b].
        -- rewrite E. reflexivity.
        -- assert (isMetaComment (rv_user rv) (rv_body rv) mf = true) as ->; [|reflexivity].
           apply isMetaComment_spec. exists f, (c :: b).
           repeat split; [assumption.. | discriminate | assumption].
      * rewrite Hb. apply andb_false_r.
  - intros rv _ Hskip Huniq e He Hty Hid. apply processComments_In, emitted_inv in He.
    destruct He as [(c & _ & _ & ->)|[(c & _ & _ & ->)|(c & Hc & Hk & ->)]];
      try discriminate.
    fold mf in Hk. rewrite (Huniq c Hc Hid) in Hk. congruence.
  - intros rv. simpl. unfold jsstring_eqb. split.
    + intros H. apply orb_prop in H as [H|H]; apply bool_decide_eq_true in H; auto.
    + intros [H|H]; rewrite H; [reflexivity | apply orb_true_r].
  - intros e He Hty. apply processComments_In, emitted_inv in He.
    destruct He as [(c & _ & _ & ->)|[(c & _ & _ & ->)|(c & _ & _ & ->)]];
      [reflexivity | reflexivity | destruct Hty; reflexivity].
Qed.

Lemma processComments_review_verdicts_witness :
  let approved := makeReview 7 200 "APPROVED" (Some (lit "Ship it")) in
  let blank := makeReview 8 300 "COMMENTED" (Some (lit "  ")) in
  let summary :=
    {| rv_id := 9; rv_user := Some (lit "cursor[bot]");
       rv_body := Some (lit "Cursor Bugbot has reviewed your changes and found 3 issues.");
       rv_state := lit "COMMENTED"; rv_submitted_at := Some 400%Z;
       rv_html_url := lit "https://github.com/org/repo/pull/1#pullrequestreview-9" |} in
  let data := {| reviewComments := [makeReviewComment 1 100 None];
                 issueComments := [];
                 reviews := [approved; blank; summary] |} in
  processComments data defaultOptions =
    [mkReview approved; mkReviewComment [] (makeReviewComment 1 100 None)] /\
  keepReview DEFAULT_META_FILTERS summary = false /\
  keepReview DEFAULT_META_FILTERS blank = false /\
  (forall e, In e (processComments data defaultOptions) ->
     c_type e = review -> c_id e <> 9%Z) /\
  c_isResolved (mkReview approved) = true /\
  c_isResolved (mkReviewComment [] (makeReviewComment 1 100 None)) = false.
Proof.
  intros approved blank summary data.
  pose proof (processComments_review_verdicts data defaultOptions)
    as (_ & Hskip & Hgone & Hres & Hother).
  assert (keepReview DEFAULT_META_FILTERS summary = false) as Hsummary.
  { apply Hskip. left.
    exists (fun user body =>
              str_is user "cursor[bot]" &&
              startsWith body (lit "Cursor Bugbot has reviewed your changes")),
           (lit "Cursor Bugbot has reviewed your changes and found 3 issues.").
    split; [right; right; left; reflexivity|].
    split; [reflexivity | vm_compute; reflexivity]. }
  split; [vm_compute; reflexivity|]. split; [|split; [|split; [|split]]].
  - exact Hsummary.
  - apply Hskip. right. vm_compute. reflexivity.
  - apply (Hgone summary).
    + simpl. auto.
    + exact Hsummary.
    + intros rv' [<-|[<-|[<-|[]]]]; simpl; intros H; try discriminate; reflexivity.
  - apply Hres. left. reflexivity.
  - apply Hother.
    + vm_compute. right. left. reflexivity.
    + simpl. discriminate.
Defined.

(** ** Reply attachment *)

(** Every reply of the output hangs under an emitted thread root that is its
    declared parent. *)
Lemma reply_provenance data options e r :
  In e (processComments data options) -> In r (c_replies e) ->
  let mf := default DEFAULT_META_FILTERS (metaFilters options) in
  exists root c,
    In root (reviewComments data) /\ isRoot mf root = true /\
    e = mkReviewComment
          (map mkReply (List.filter (isReplyTo (rc_id root)) (reviewComments data))) root /\
    In c (reviewComments data) /\ isReplyTo (rc_id root) c = true /\ r = mkReply c.
Proof.
  intros He Hr mf. apply processComments_In, emitted_inv in He.
  destruct He as [(root & Hroot & Hk & ->)|[(c & _ & _ & ->)|(c & _ & _ & ->)]];
    [|destruct Hr..].
  simpl in Hr. apply in_map_iff in Hr as (c & <- & Hc).
  apply filter_In in Hc as [Hc Hrep]. exists root, c. repeat split; assumption.
Qed.

Lemma isReplyTo_spec k c :
  isReplyTo k c = true <->
  truthyZ (rc_in_reply_to_id c) = true /\ rc_in_reply_to_id c = Some k.
Proof.
  unfold isReplyTo. rewrite andb_true_iff, bool_decide_eq_true. reflexivity.
Qed.

Lemma isRoot_spec mf c :
  isRoot mf c = true <->
  truthyZ (rc_in_reply_to_id c) = false /\
  isMetaComment (rc_user c) (rc_body c) mf = false.
Proof.
  unfold isRoot. rewrite andb_true_iff, !negb_true_iff. reflexivity.
Qed.

(** A reply none of whose declared parents is an emitted root is dropped. *)
Lemma reply_dropped data options c :
  let mf := default DEFAULT_META_FILTERS (metaFilters options) in
  In c (reviewComments data) ->
  truthyZ (rc_in_reply_to_id c) = true ->
  unique_id c (reviewComments data) ->
  (forall p, In p (reviewComments data) ->
     rc_in_reply_to_id c = Some (rc_id p) -> isRoot mf p = false) ->
  absent_from (rc_id c) (processComments data options).
Proof.
  intros mf Hc Ht Huniq Hparent e He. split.
  - intros Hty Hid. apply processComments_In, emitted_inv in He.
    destruct He as [(root & Hroot & Hk & ->)|[(x & _ & _ & ->)|(x & _ & _ & ->)]];
      try discriminate.
    simpl in Hid. apply Huniq in Hid; [|exact Hroot]. subst root.
    apply isRoot_spec in Hk as [Hk _]. congruence.
  - intros r Hr Hid.
    destruct (reply_provenance _ _ _ _ He Hr) as (root & c' & Hroot & Hk & _ & Hc' & Hrep & ->).
    simpl in Hid. apply Huniq in Hid; [|exact Hc']. subst c'.
    apply isReplyTo_spec in Hrep as [_ Hrep].
    specialize (Hparent root Hroot Hrep). fold mf in Hk. congruence.
Qed.

(** A thread root is never a reply in the output. *)
Lemma root_not_reply data options p :
  In p (reviewComments data) ->
  truthyZ (rc_in_reply_to_id p) = false ->
  unique_id p (reviewComments data) ->
  forall e r, In e (processComments data options) -> In r (c_replies e) ->
  r_id r <> rc_id p.
Proof.
  intros Hp Ht Huniq e r He Hr Hid.
  destruct (reply_provenance _ _ _ _ He Hr) as (root & c' & _ & _ & _ & Hc' & Hrep & ->).
  simpl in Hid. apply Huniq in Hid; [|exact Hc']. subst c'.
  apply isReplyTo_spec in Hrep as [Hrep _]. congruence.
Qed.

(** An inline comment that is not an emitted root is no top-level entity. *)
Lemma non_root_not_top_level data options p :
  let mf := default DEFAULT_META_FILTERS (metaFilters options) in
  In p (reviewComments data) ->
  isRoot mf p = false ->
  unique_id p (reviewComments data) ->
  forall e, In e (processComments data options) ->
  c_type e = review_comment -> c_id e <> rc_id p.
Proof.
  intros mf Hp Hk Huniq e He Hty Hid. apply processComments_In, emitted_inv in He.
  destruct He as [(root & Hroot & Hk' & ->)|[(x & _ & _ & ->)|(x & _ & _ & ->)]];
    try discriminate.
  simpl in Hid. apply Huniq in Hid; [|exact Hroot]. subst root.
  fold mf in Hk'. congruence.
Qed.

(** C7: an inline comment that carries a parent id matching no comment of
    the inline-comment set is dropped: no top-level inline entity and no
    reply of any entity of the output carries its id. *)
Theorem orphan_reply_dropped (data : RawData) (options : ProcessOptions)
    (c : ReviewComment) :
  In c (reviewComments data) ->
  truthyZ (rc_in_reply_to_id c) = true ->
  (forall p, In p (reviewComments data) -> rc_in_reply_to_id c <> Some (rc_id p)) ->
  unique_id c (reviewComments data) ->
  absent_from (rc_id c) (processComments data options).
Proof.
  intros Hc Ht Horphan Huniq. apply reply_dropped; try assumption.
  intros p Hp Hpar. destruct (Horphan p Hp Hpar).
Qed.

Lemma orphan_reply_dropped_witness :
  let orphan := makeReviewComment 2 200 (Some 99%Z) in
  let data := {| reviewComments := [makeReviewComment 1 100 None; orphan];
                 issueComments := []; reviews := [] |} in
  processComments data defaultOptions = [mkReviewComment [] (makeReviewComment 1 100 None)] /\
  absent_from 2 (processComments data defaultOptions).
Proof.
  intros orphan data. split; [vm_compute; reflexivity|].
  apply (orphan_reply_dropped data defaultOptions orphan).
  - simpl. right. left. reflexivity.
  - reflexivity.
  - intros p [<-|[<-|[]]]; simpl; discriminate.
  - intros c' [<-|[<-|[]]]; simpl; intros H; [discriminate | reflexivity].
Defined.

(** C10, as stated, fails in its last part: the parent of a dropped
    reply-to-a-reply is not dropped with it.  With a root 1, a reply 2 to it
    and a reply 3 to that reply, comment 3 is dropped while its parent 2 is in
    the output, as a reply of 1. *)
Lemma reply_to_reply_parent_kept :
  let root := makeReviewComment 1 100 None in
  let parent := makeReviewComment 2 200 (Some 1%Z) in
  let child := makeReviewComment 3 300 (Some 2%Z) in
  let out := processComments
               {| reviewComments := [root; parent; child];
                  issueComments := []; reviews := [] |} defaultOptions in
  out = [mkReviewComment [mkReply parent] root] /\
  rc_in_reply_to_id child = Some (rc_id parent) /\
  truthyZ (rc_in_reply_to_id parent) = true /\
  absent_from (rc_id child) out /\
  ~ absent_from (rc_id parent) out.
Proof.
  intros root parent child out.
  assert (out = [mkReviewComment [mkReply parent] root]) as E
    by (vm_compute; reflexivity).
  split; [exact E|]. split; [reflexivity|]. split; [reflexivity|].
  rewrite E. split.
  - intros e [<-|[]]. split.
    + intros _. simpl. discriminate.
    + intros r [<-|[]]. simpl. discriminate.
  - intros H. destruct (H _ (or_introl eq_refl)) as [_ H'].
    apply (H' (mkReply parent)); [left|]; reflexivity.
Qed.

(** A reply declared for an emitted thread root is listed under it. *)
Lemma reply_listed_under_root data options g p :
  let mf := default DEFAULT_META_FILTERS (metaFilters options) in
  In g (reviewComments data) -> isRoot mf g = true ->
  In p (reviewComments data) -> isReplyTo (rc_id g) p = true ->
  exists e, In e (processComments data options) /\
            c_type e = review_comment /\ c_id e = rc_id g /\
            In (mkReply p) (c_replies e).
Proof.
  intros mf Hg Hk Hp Hrep.
  exists (mkReviewComment
            (map mkReply (List.filter (isReplyTo (rc_id g)) (reviewComments data))) g).
  split; [|split; [reflexivity|split; [reflexivity|]]].
  - apply processComments_In. unfold emitted. fold mf.
    apply in_or_app. left.
    apply (in_map (fun c => mkReviewComment
                     (map mkReply (List.filter (isReplyTo (rc_id c)) (reviewComments data))) c)).
    apply filter_In. split; assumption.
  - simpl. apply in_map, filter_In. split; assumption.
Qed.

(** C10 (amended): every reply of the output is attached to an emitted,
    non-meta inline thread root, which is its declared parent.  A reply whose
    declared parent is in the inline set but is itself a reply, or is
    suppressed by a meta predicate, is dropped entirely; that parent is never
    a top-level entity, and a meta-suppressed parent shows nowhere in the
    output.  A parent that is itself a reply is not dropped with its reply:
    when the comment it answers is an emitted thread root, it is listed among
    the replies of that root. *)
Theorem replies_attach_to_emitted_roots (data : RawData) (options : ProcessOptions) :
  let mf := default DEFAULT_META_FILTERS (metaFilters options) in
  let rcs := reviewComments data in
  let out := processComments data options in
  (forall e r, In e out -> In r (c_replies e) ->
     c_type e = review_comment /\
     exists root c,
       In root rcs /\ truthyZ (rc_in_reply_to_id root) = false /\
       isMetaComment (rc_user root) (rc_body root) mf = false /\
       c_id e = rc_id root /\
       In c rcs /\ rc_in_reply_to_id c = Some (rc_id root) /\ r = mkReply c) /\
  (forall c p,
     In c rcs -> truthyZ (rc_in_reply_to_id c) = true -> unique_id c rcs ->
     In p rcs -> rc_in_reply_to_id c = Some (rc_id p) -> unique_id p rcs ->
     truthyZ (rc_in_reply_to_id p) = true \/
       isMetaComment (rc_user p) (rc_body p) mf = true ->
     absent_from (rc_id c) out /\
     (forall e, In e out -> c_type e = review_comment -> c_id e <> rc_id p) /\
     (truthyZ (rc_in_reply_to_id p) = false -> absent_from (rc_id p) out)) /\
  (forall g p,
     In g rcs -> truthyZ (rc_in_reply_to_id g) = false ->
     isMetaComment (rc_user g) (rc_body g) mf = false ->
     In p rcs -> truthyZ (rc_in_reply_to_id p) = true ->
     rc_in_reply_to_id p = Some (rc_id g) ->
     exists e, In e out /\ c_type e = review_comment /\ c_id e = rc_id g /\
               In (mkReply p) (c_replies e)).
Proof.
  intros mf rcs out. split; [|split].
  - intros e r He Hr.
    destruct (reply_provenance _ _ _ _ He Hr)
      as (root & c & Hroot & Hk & -> & Hc & Hrep & ->).
    apply isRoot_spec in Hk as [Hk1 Hk2]. apply isReplyTo_spec in Hrep as [_ Hrep].
    split; [reflexivity|]. exists root, c. repeat split; assumption.
  - intros c p Hc Ht Huc Hp Hpar Hup Hsupp.
    assert (isRoot mf p = false) as Hnr.
    { unfold isRoot. destruct Hsupp as [-> | ->]; [reflexivity | apply andb_false_r]. }
    split; [|split].
    + apply reply_dropped; try assumption.
      intros p' Hp' Hpar'. fold mf.
      assert (p' = p) as -> by (apply Hup; [exact Hp' | congruence]).
      exact Hnr.
    + intros e He. exact (non_root_not_top_level data options p Hp Hnr Hup e He).
    + intros Hroot e He. split.
      * exact (non_root_not_top_level data options p Hp Hnr Hup e He).
      * intros r Hr. exact (root_not_reply _ _ _ Hp Hroot Hup e r He Hr).
  - intros g p Hg Hgt Hgm Hp Hpt Hpar.
    apply (reply_listed_under_root data options g p Hg); [|exact Hp|].
    + apply isRoot_spec. split; assumption.
    + apply isReplyTo_spec. split; assumption.
Qed.

Lemma replies_attach_to_emitted_roots_witness :
  let root := makeReviewComment 1 100 None in
  let parent := makeReviewComment 2 200 (Some 1%Z) in
  let grandchild := makeReviewComment 3 300 (Some 2%Z) in
  let meta := {| rc_id := 5; rc_user := Some (lit "vercel[bot]");
                 rc_body := Some (lit "[vc]: deployment status");
                 rc_path := None; rc_line := None; rc_original_line := None;
                 rc_diff_hunk := None; rc_created_at := Some 50%Z;
                 rc_updated_at := Some 50%Z;
                 rc_html_url := lit "https://github.com/org/repo/pull/1#discussion_r5";
                 rc_in_reply_to_id := None |} in
  let child := makeReviewComment 6 60 (Some 5%Z) in
  let data := {| reviewComments := [root; parent; grandchild; meta; child];
                 issueComments := []; reviews := [] |} in
  let out := processComments data defaultOptions in
  out = [mkReviewComment [mkReply parent] root] /\
  absent_from 6 out /\ absent_from 5 out /\ absent_from 3 out /\
  exists e, In e out /\ c_type e = review_comment /\ c_id e = 1%Z /\
            In (mkReply parent) (c_replies e).
Proof.
  intros root parent grandchild meta child data out.
  pose proof (replies_attach_to_emitted_roots data defaultOptions)
    as (_ & Hdrop & Hkeep).
  assert (forall c, In c (reviewComments data) -> unique_id c (reviewComments data))
    as Huniq.
  { intros c Hc c' Hc'. simpl in Hc, Hc'.
    destruct Hc as [<-|[<-|[<-|[<-|[<-|[]]]]]];
      destruct Hc' as [<-|[<-|[<-|[<-|[<-|[]]]]]]; simpl; intros H;
      try discriminate; reflexivity. }
  split; [vm_compute; reflexivity|].
  destruct (Hdrop child meta) as (Hchild & _ & Hmeta).
  { simpl. auto 6. }
  { reflexivity. }
  { apply Huniq. simpl. auto 6. }
  { simpl. auto 6. }
  { reflexivity. }
  { apply Huniq. simpl. auto 6. }
  { right. reflexivity. }
  destruct (Hdrop grandchild parent) as (Hgrandchild & _ & _).
  { simpl. auto 6. }
  { reflexivity. }
  { apply Huniq. simpl. auto 6. }
  { simpl. auto 6. }
  { reflexivity. }
  { apply Huniq. simpl. auto 6. }
  { left. reflexivity. }
  split; [exact Hchild|]. split; [apply Hmeta; reflexivity|].
  split; [exact Hgrandchild|].
  apply (Hkeep root parent).
  - simpl. auto 6.
  - reflexivity.
  - reflexivity.
  - simpl. auto 6.
  - reflexivity.
  - reflexivity.
Defined.

(** ** Filtering on array objects *)

Lemma array_filter_spec p r (h : store) xs :
  h !! r = Some xs ->
  array_filter p r h = Some (length h, h ++ [List.filter p xs]).
Proof. intros H. unfold array_filter. rewrite H. reflexivity. Qed.

Lemma preserved_refl h : preserved h h.
Proof. intros l ys H. exact H. Qed.

Lemma preserved_alloc (h : store) ys : preserved h (h ++ [ys]).
Proof.
  intros l zs H. rewrite lookup_app_l; [exact H|].
  apply lookup_lt_Some in H. exact H.
Qed.

Lemma preserved_trans h1 h2 h3 : preserved h1 h2 -> preserved h2 h3 -> preserved h1 h3.
Proof. intros H12 H23 l ys H. apply H23, H12, H. Qed.

Lemma lookup_alloc (h : store) ys : (h ++ [ys]) !! length h = Some ys.
Proof. rewrite lookup_app_r by lia. rewrite Nat.sub_diag. reflexivity. Qed.

(** What [filterComments] does on the store: existing arrays keep their
    contents, the result holds the filtered value, and the result is a newly
    allocated array exactly when some filter is active; with no filter the
    input array itself is returned. *)
Lemma filterComments_ref_spec (h : store) (comments : ref) xs options :
  h !! comments = Some xs ->
  exists r h',
    filterComments_ref comments options h = Some (r, h') /\
    preserved h h' /\
    h' !! r = Some (filterComments xs options) /\
    (if filtering options then (length h <= r)%nat else r = comments /\ h' = h).
Proof.
  intros H. unfold filterComments_ref, filterComments, filtering.
  destruct (botsOnly options), (humansOnly options),
    (str_is (filter_ options) "unresolved"), (str_is (filter_ options) "unanswered");
    simpl;
    repeat (first
      [ rewrite (array_filter_spec _ _ _ _ H)
      | rewrite (array_filter_spec _ _ _ _ (lookup_alloc _ _)) ]; simpl);
    eexists _, _; (split; [reflexivity|]);
    repeat split;
    try (rewrite ?length_app; simpl; lia);
    try apply lookup_alloc;
    try exact H;
    try apply preserved_refl;
    try apply preserved_alloc;
    try (eapply preserved_trans; apply preserved_alloc).
Qed.

(** C3, as stated, fails for the configuration it names: with no actor-class
    option and no recognized state filter the function returns its input
    array itself, not a new collection. *)
Lemma filterComments_returns_input_array :
  let h : store := [testComments] in
  filterComments_ref 0 noOptions h = Some (0%nat, h) /\
  ~ (exists r h', filterComments_ref 0 noOptions h = Some (r, h') /\ r <> 0%nat).
Proof.
  intros h. split; [reflexivity|].
  intros (r & h' & Hrun & Hnew). injection Hrun as <- _. apply Hnew. reflexivity.
Qed.

(** C3 (amended): the filter engine never modifies its input collection nor
    any other existing collection; when an actor-class option or a recognized
    state filter is set it returns a newly allocated collection, and when
    none is set it returns the input collection itself, allocating nothing. *)
Theorem filterComments_leaves_input_unmodified
    (h : store) (comments : ref) (xs : list Comment) (options : Options) :
  h !! comments = Some xs ->
  exists r h',
    filterComments_ref comments options h = Some (r, h') /\
    h' !! comments = Some xs /\
    preserved h h' /\
    h' !! r = Some (filterComments xs options) /\
    (filtering options = true -> h !! r = None /\ r <> comments) /\
    (filtering options = false -> r = comments /\ h' = h).
Proof.
  intros H.
  destruct (filterComments_ref_spec h comments xs options H)
    as (r & h' & Hrun & Hpres & Hres & Hnew).
  exists r, h'. split; [exact Hrun|]. split; [apply Hpres, H|].
  split; [exact Hpres|]. split; [exact Hres|]. split.
  - intros Hf. rewrite Hf in Hnew. split.
    + apply lookup_ge_None. exact Hnew.
    + apply lookup_lt_Some in H. lia.
  - intros Hf. rewrite Hf in Hnew. exact Hnew.
Qed.

Lemma filterComments_leaves_input_unmodified_witness :
  let h : store := [testComments] in
  let options := {| botsOnly := true; humansOnly := false;
                    filter_ := Some (lit "unresolved");
                    watchInterval := 30; watchTimeout := 600 |} in
  exists r h',
    filterComments_ref 0 options h = Some (r, h') /\
    h' !! 0%nat = Some testComments /\
    preserved h h' /\
    h' !! r = Some (filterComments testComments options) /\
    (filtering options = true -> h !! r = None /\ r <> 0%nat) /\
    (filtering options = false -> r = 0%nat /\ h' = h).
Proof.
  intros h options.
  apply (filterComments_leaves_input_unmodified h 0%nat testComments options).
  reflexivity.
Defined.

(** ** Paginated fetch *)

Section FetchAllPages.
Context {A : Type} (proxyFetch : Transport (list A)) (token : jsstring).

(** After successful pages the loop carries their items on. *)
Lemma fetchLoop_ok_pages nextUrl n pages nextUrl' n' :
  OkPages proxyFetch token nextUrl n pages nextUrl' n' ->
  forall fuel results,
    fetchLoop (length pages + fuel) token proxyFetch nextUrl results n =
    fetchLoop fuel token proxyFetch nextUrl' (results ++ concat (map json pages)) n'.
Proof.
  induction 1 as [nextUrl n|c url n pages nextUrl' n' Hok _ IH]; intros fuel results.
  - simpl. rewrite app_nil_r. reflexivity.
  - simpl. rewrite Hok. simpl. rewrite IH, app_assoc. reflexivity.
Qed.

Lemma fetchLoop_done fuel results n nextUrl :
  match nextUrl with Some (_ :: _) => False | _ => True end ->
  fetchLoop fuel token proxyFetch nextUrl results n = Some (Returned results, n).
Proof.
  destruct nextUrl as [[|c u]|]; intros H; destruct H; destruct fuel; reflexivity.
Qed.

(** The complete result: every page was successful and the last one named
    no next page. *)
Lemma fetchAllPages_returns url n pages nextUrl' n' fuel :
  OkPages proxyFetch token (Some url) n pages nextUrl' n' ->
  match nextUrl' with Some (_ :: _) => False | _ => True end ->
  (length pages <= fuel)%nat ->
  fetchAllPages fuel url token proxyFetch n =
  Some (Returned (concat (map json pages)), n').
Proof.
  intros Hpages Hlast Hfuel. unfold fetchAllPages.
  replace fuel with (length pages + (fuel - length pages))%nat by lia.
  rewrite (fetchLoop_ok_pages _ _ _ _ _ Hpages).
  apply fetchLoop_done, Hlast.
Qed.

Lemma fetchAllPages_throws url n pages c failing n' fuel :
  OkPages proxyFetch token (Some url) n pages (Some (c :: failing)) n' ->
  ok (proxyFetch n' (getRequest (c :: failing) token)) = false ->
  (length pages < fuel)%nat ->
  fetchAllPages fuel url token proxyFetch n =
  Some (Thrown {| message :=
          lit "API request failed: " ++
          dec (status (proxyFetch n' (getRequest (c :: failing) token))) |}, S n').
Proof.
  intros Hpages Hfail Hfuel. unfold fetchAllPages.
  replace fuel with (length pages + S (fuel - S (length pages)))%nat by lia.
  rewrite (fetchLoop_ok_pages _ _ _ _ _ Hpages).
  simpl. rewrite Hfail. reflexivity.
Qed.
End FetchAllPages.

(** C4, as stated, fails: the failure carries the status only.  Two fetches
    of different URLs that meet the same status fail with the same error, so
    the requested URL cannot be read off it. *)
Lemma fetchAllPages_failure_without_url :
  let proxyFetch : Transport (list Z) := serve [failedPage 500 [] "down"] [] in
  let failure := Thrown {| message := lit "API request failed: 500" |} in
  fetchAllPages 1 (lit "https://api.github.com/repos/o/r/pulls/1/comments") [] proxyFetch 0
    = Some (failure, 1%nat) /\
  fetchAllPages 1 (lit "https://api.github.com/repos/o/r/issues/1/comments") [] proxyFetch 0
    = Some (failure, 1%nat) /\
  ~ (exists url_of : Error -> jsstring,
       forall fuel url token (net : Transport (list Z)) n error n',
         fetchAllPages fuel url token net n = Some (Thrown error, n') ->
         url_of error = url).
Proof.
  intros proxyFetch failure.
  assert (fetchAllPages 1 (lit "https://api.github.com/repos/o/r/pulls/1/comments") []
            proxyFetch 0 = Some (failure, 1%nat)) as H1 by (vm_compute; reflexivity).
  assert (fetchAllPages 1 (lit "https://api.github.com/repos/o/r/issues/1/comments") []
            proxyFetch 0 = Some (failure, 1%nat)) as H2 by (vm_compute; reflexivity).
  split; [exact H1|]. split; [exact H2|].
  intros [url_of H].
  pose proof (H _ _ _ _ _ _ _ H1) as E1. pose proof (H _ _ _ _ _ _ _ H2) as E2.
  rewrite E1 in E2. vm_compute in E2. discriminate.
Qed.

(** C4 (amended): for every sequence of successful pages followed by a page
    whose HTTP status is not successful, the paginated fetch fails with an
    error whose message carries the failing status (and no URL); nothing is
    returned of the pages fetched before the failure, and no request is made
    after it. *)
Theorem fetchAllPages_fails_without_partial_result {A : Type}
    (proxyFetch : Transport (list A)) (token url : jsstring) (n : nat)
    (pages : list (Response (list A))) (c : code_unit) (failing : jsstring)
    (n' fuel : nat) :
  OkPages proxyFetch token (Some url) n pages (Some (c :: failing)) n' ->
  ok (proxyFetch n' (getRequest (c :: failing) token)) = false ->
  (length pages < fuel)%nat ->
  fetchAllPages fuel url token proxyFetch n =
    Some (Thrown {| message :=
            lit "API request failed: " ++
            dec (status (proxyFetch n' (getRequest (c :: failing) token))) |}, S n') /\
  n' = (n + length pages)%nat /\
  forall partial m, fetchAllPages fuel url token proxyFetch n <> Some (Returned partial, m).
Proof.
  intros Hpages Hfail Hfuel.
  pose proof (fetchAllPages_throws _ _ _ _ _ _ _ _ _ Hpages Hfail Hfuel) as H.
  split; [exact H|]. split.
  - clear H Hfail Hfuel.
    remember (Some url) as start eqn:Es. remember (Some (c :: failing)) as stop eqn:Ee.
    clear Es Ee. induction Hpages as [|? ? ? ? ? ? _ _ IH]; simpl; lia.
  - intros partial m. rewrite H. discriminate.
Qed.

Lemma fetchAllPages_fails_without_partial_result_witness :
  let page1 : Response (list Z) :=
    okPage [11; 12]%Z (nextHeader "https://api.github.com/p2") in
  let proxyFetch := serve [page1; failedPage 502 [] "Bad Gateway"] [] in
  fetchAllPages 5 (lit "https://api.github.com/p1") (lit "t0ken") proxyFetch 0
    = Some (Thrown {| message := lit "API request failed: 502" |}, 2%nat) /\
  forall partial m,
    fetchAllPages 5 (lit "https://api.github.com/p1") (lit "t0ken") proxyFetch 0
      <> Some (Returned partial, m).
Proof.
  intros page1 proxyFetch.
  destruct (fetchAllPages_fails_without_partial_result proxyFetch (lit "t0ken")
              (lit "https://api.github.com/p1") 0 [page1]
              104%N (lit "ttps://api.github.com/p2") 1 5) as (H & _ & Hno).
  - apply (OkPages_cons proxyFetch (lit "t0ken") 104%N (lit "ttps://api.github.com/p1")
             0 [] (Some (lit "https://api.github.com/p2")) 1 eq_refl).
    vm_compute. apply OkPages_nil.
  - reflexivity.
  - simpl. lia.
  - split; [exact H | exact Hno].
Defined.

(** ** Reply submission *)

Lemma startsWith_app (p s : jsstring) : startsWith (p ++ s) p = true.
Proof.
  induction p as [|a p IH]; simpl; [destruct s; reflexivity|].
  rewrite N.eqb_refl. exact IH.
Qed.

(** C5, as stated, fails: when both endpoints fail the caller sees one
    status code, the one of the fallback endpoint.  Whether the inline
    endpoint answered 404 or 403, the failure is the same. *)
Lemma replyToComment_failure_hides_first_status :
  let reply first :=
    replyToComment (lit "org") (lit "repo") 1 (lit "42") (lit "Fixed") (lit "t0ken")
      (serve [failedPage first 0%Z "Not Found";
              failedPage 500 0%Z "Server Error"] 0%Z) 0 in
  reply 404%N = (Thrown {| message := lit "Failed to reply: 500 - Server Error" |}, 2%nat) /\
  reply 403%N = reply 404%N /\
  ~ (exists first_status_of : Error -> N,
       forall owner repo prNumber commentId message token
              (proxyFetch : Transport Z) n error n',
         replyToComment owner repo prNumber commentId message token proxyFetch n
           = (Thrown error, n') ->
         first_status_of error =
           status (proxyFetch n
                     (postRequest (repliesUrl owner repo prNumber commentId) token message))).
Proof.
  intros reply.
  assert (reply 404%N =
          (Thrown {| message := lit "Failed to reply: 500 - Server Error" |}, 2%nat)) as H1
    by (vm_compute; reflexivity).
  assert (reply 403%N = reply 404%N) as H2 by (vm_compute; reflexivity).
  split; [exact H1|]. split; [exact H2|].
  intros [f H].
  pose proof (H _ _ _ _ _ _ _ _ _ _ H1) as E1.
  rewrite <- H2 in H1. pose proof (H _ _ _ _ _ _ _ _ _ _ H1) as E2.
  rewrite E1 in E2. vm_compute in E2. discriminate.
Qed.

(** C5 (amended): the reply-submission operation first posts the message to
    the inline-thread-reply endpoint and, when that succeeds, returns the
    created entity (its permalink is a field of it) after that one request.
    On any non-success status it posts a general comment whose body starts
    with a reference to the original comment id, and returns the entity
    created by it.  When both endpoints fail it fails with an error surfacing
    the status code and the response text of the fallback endpoint only. *)
Theorem replyToComment_fallback {A : Type} (owner repo : jsstring) (prNumber : N)
    (commentId message token : jsstring) (proxyFetch : Transport A) (n : nat) :
  let response :=
    proxyFetch n (postRequest (repliesUrl owner repo prNumber commentId) token message) in
  let issueResponse :=
    proxyFetch (S n) (postRequest (issueCommentsUrl owner repo prNumber) token
                        (fallbackBody commentId message)) in
  let result :=
    replyToComment owner repo prNumber commentId message token proxyFetch n in
  (ok response = true -> result = (Returned (json response), S n)) /\
  (ok response = false -> ok issueResponse = true ->
     result = (Returned (json issueResponse), S (S n))) /\
  (ok response = false -> ok issueResponse = false ->
     result = (Thrown {| message := lit "Failed to reply: " ++ dec (status issueResponse)
                                    ++ lit " - " ++ text issueResponse |}, S (S n))) /\
  startsWith (fallbackBody commentId message) (lit "> Re: comment " ++ commentId) = true.
Proof.
  intros response issueResponse result. unfold result, replyToComment.
  fold response. fold issueResponse.
  repeat split.
  - intros ->. reflexivity.
  - intros -> ->. reflexivity.
  - intros -> ->. reflexivity.
  - unfold fallbackBody. rewrite app_assoc. apply startsWith_app.
Qed.

Lemma replyToComment_fallback_witness :
  let proxyFetch : Transport Z :=
    serve [failedPage 404 0%Z "Not Found"; okPage 77%Z None] 0%Z in
  replyToComment (lit "org") (lit "repo") 1 (lit "42") (lit "Fixed") (lit "t0ken") proxyFetch 0
  = (Returned 77%Z, 2%nat).
Proof.
  intros proxyFetch.
  apply (proj1 (proj2 (replyToComment_fallback (lit "org") (lit "repo") 1 (lit "42")
                         (lit "Fixed") (lit "t0ken") proxyFetch 0))).
  - reflexivity.
  - reflexivity.
Defined.

(** ** Watch loop *)

Lemma fold_seen cs : forall seen : gset Z,
  fold_left (fun seen c => {[c_id c]} ∪ seen) cs seen = seen ∪ idsOf cs.
Proof.
  unfold idsOf. induction cs as [|c cs IH]; intros seen; simpl.
  - rewrite (right_id_L ∅ (∪)). reflexivity.
  - rewrite IH, (comm_L (∪) {[c_id c]} seen), (assoc_L (∪)). reflexivity.
Qed.

Lemma markSeen_seenIds cs st :
  seenIds (markSeen cs st) = seenIds st ∪ idsOf cs.
Proof. apply fold_seen. Qed.

Lemma length_pos_nonempty {A} (l : list A) : (0 <? length l)%nat = true <-> l <> [].
Proof.
  destruct l; simpl; split.
  - discriminate.
  - intros H. destruct H. reflexivity.
  - intros _. discriminate.
  - reflexivity.
Qed.

Lemma elem_of_idsOf c cs : In c cs -> c_id c ∈ idsOf cs.
Proof.
  intros H. unfold idsOf. apply elem_of_list_to_set, list_elem_of_In.
  apply in_map, H.
Qed.

(** C2: when a poll finds a filtered comment whose id is not in the seen
    set, the loop sleeps the 5 seconds of grace, fetches once more, adds
    every entity of that second pass whose id is still unseen to the ones
    found first, marks the ids of both passes as seen, reports the whole
    list and returns: whatever fuel is left, no further poll is made. *)
Theorem watch_detection_grace_report
    (fetchPRComments : nat -> option RawData) (clock : nat -> Z)
    (options : Options) (st : WatchState) (rawData graceData : RawData) :
  fetchPRComments (fetches st) = Some rawData ->
  fetchPRComments (S (fetches st)) = Some graceData ->
  let newComments := notIn (seenIds st) (pass rawData options) in
  let lateComments := notIn (seenIds st ∪ idsOf newComments) (pass graceData options) in
  let reported := newComments ++ lateComments in
  newComments <> [] ->
  exists st',
    pollOnce fetchPRComments clock options st = Stop (ExitNewComments reported) st' /\
    (forall fuel, watchLoop (S fuel) fetchPRComments clock options st
                  = Some (ExitNewComments reported, st')) /\
    trace st' =
      trace st ++
      [Sleep (watchInterval options); Fetch; NewCommentsDetected (length newComments);
       Sleep 5; Fetch] ++
      (if (0 <? length lateComments)%nat
       then [CaughtAdditional (length lateComments)] else []) ++
      [Report reported] /\
    fetches st' = S (S (fetches st)) /\
    pollCount st' = S (pollCount st) /\
    seenIds st' = seenIds st ∪ idsOf reported /\
    (forall c, In c (pass graceData options) ->
       c_id c ∉ seenIds st ∪ idsOf newComments -> In c reported) /\
    (forall c, In c reported -> c_id c ∈ seenIds st').
Proof.
  intros Hpoll Hgrace newComments lateComments reported Hnew.
  assert (pollOnce fetchPRComments clock options st =
          Stop (ExitNewComments reported)
            (emit (Report reported)
               (let st5 := markSeen lateComments
                  {| seenIds := seenIds st ∪ idsOf newComments;
                     lastActivityTime := lastActivityTime st;
                     pollCount := S (pollCount st);
                     fetches := S (S (fetches st));
                     trace := trace st ++
                       [Sleep (watchInterval options); Fetch;
                        NewCommentsDetected (length newComments); Sleep 5; Fetch] |} in
                if (0 <? length lateComments)%nat
                then emit (CaughtAdditional (length lateComments)) st5 else st5))) as Hrun.
  { unfold pollOnce, fetchFiltered. simpl. rewrite Hpoll.
    fold (pass rawData options). unfold unseen. simpl.
    fold (notIn (seenIds st) (pass rawData options)). fold newComments.
    apply length_pos_nonempty in Hnew. rewrite Hnew.
    simpl. rewrite Hgrace. fold (pass graceData options).
    unfold unseen. simpl. rewrite !fold_seen.
    fold (notIn (seenIds st ∪ idsOf newComments) (pass graceData options)).
    fold lateComments. fold reported.
    unfold markSeen. simpl. rewrite !fold_seen, <- !app_assoc. reflexivity. }
  eexists. split; [exact Hrun|].
  split; [intros fuel; simpl; rewrite Hrun; reflexivity|].
  assert (forall s : WatchState,
            seenIds (if (0 <? length lateComments)%nat
                     then emit (CaughtAdditional (length lateComments)) s else s)
            = seenIds s) as Hseen by (intros s; destruct (0 <? _)%nat; reflexivity).
  simpl. rewrite Hseen, markSeen_seenIds. simpl.
  assert (seenIds st ∪ idsOf newComments ∪ idsOf lateComments = seenIds st ∪ idsOf reported)
    as Hids.
  { unfold reported, idsOf. rewrite map_app, list_to_set_app_L, (assoc_L (∪)). reflexivity. }
  split; [destruct (0 <? length lateComments)%nat; simpl; rewrite <- !app_assoc; reflexivity|].
  split; [destruct (0 <? length lateComments)%nat; reflexivity|].
  split; [destruct (0 <? length lateComments)%nat; reflexivity|].
  split; [exact Hids|]. split.
  - intros c Hc Hunseen. unfold reported. apply in_or_app. right.
    unfold lateComments, notIn. apply filter_In. split; [exact Hc|].
    apply negb_true_iff, bool_decide_eq_false. exact Hunseen.
  - intros c Hc. rewrite Hids. apply elem_of_union_r, elem_of_idsOf, Hc.
Qed.

Lemma watch_detection_grace_report_witness :
  let st := {| seenIds := ∅; lastActivityTime := 0; pollCount := 0;
               fetches := 1; trace := [Fetch; InitialState []] |} in
  let found := mkReviewComment [] (makeReviewComment 1 100 None) in
  exists st',
    watchLoop 1 scenarioFetch scenarioClock scenarioOptions st
      = Some (ExitNewComments [found], st') /\
    trace st' = [Fetch; InitialState []; Sleep 1; Fetch; NewCommentsDetected 1;
                 Sleep 5; Fetch; Report [found]] /\
    fetches st' = 3%nat.
Proof.
  intros st found.
  destruct (watch_detection_grace_report scenarioFetch scenarioClock scenarioOptions st
              {| reviewComments := [makeReviewComment 1 100 None];
                 issueComments := []; reviews := [] |}
              {| reviewComments := [makeReviewComment 1 100 None];
                 issueComments := []; reviews := [] |})
    as (st' & _ & Hloop & Htrace & Hfetches & _).
  - reflexivity.
  - reflexivity.
  - vm_compute. discriminate.
  - exists st'. split; [|split].
    + rewrite (Hloop 0%nat). vm_compute. reflexivity.
    + rewrite Htrace. vm_compute. reflexivity.
    + exact Hfetches.
Defined.

(** The two scenarios of the design document, run from the start. *)
Example watch_scenario_new_comment :
  exists st,
    watchForComments 10 scenarioFetch scenarioClock scenarioOptions
      = Some (ExitNewComments [mkReviewComment [] (makeReviewComment 1 100 None)], st) /\
    trace st = [Fetch; InitialState []; Sleep 1; Fetch; NewCommentsDetected 1;
                Sleep 5; Fetch;
                Report [mkReviewComment [] (makeReviewComment 1 100 None)]].
Proof. eexists. split; vm_compute; reflexivity. Qed.

Example watch_scenario_idle :
  exists st,
    watchForComments 10 idleFetch scenarioClock scenarioOptions = Some (ExitTimeout, st) /\
    trace st = [Fetch; InitialState [mkReviewComment [] (makeReviewComment 1 100 None)];
                Sleep 1; Fetch; NoNewComments 1 1;
                Sleep 1; Fetch; NoNewComments 2 2; WatchComplete 1].
Proof. eexists. split; vm_compute; reflexivity. Qed.

(** * Further properties of the code *)

(** ** Body cleanup *)

Lemma cleaned_text_length s : (length (cleaned_text s) <= length s)%nat.
Proof.
  unfold cleaned_text.
  pose proof (remove_length_le _ html_comment_consumes s) as L1.
  pose proof (remove_length_le _ additional_locations_consumes
                (replace re_html_comment [] s)) as L2.
  pose proof (remove_length_le _ cursor_link_consumes
                (replace re_additional_locations [] (replace re_html_comment [] s))) as L3.
  pose proof (collapse_length (replace re_cursor_link []
                (replace re_additional_locations [] (replace re_html_comment [] s)))) as L4.
  pose proof (trim_length (collapse (replace re_cursor_link []
                (replace re_additional_locations [] (replace re_html_comment [] s))))) as L5.
  lia.
Qed.

(** X1: whatever the text, its sanitized form has no white space at either
    end (trimming it again changes nothing), holds no run of three newlines,
    and is never longer than the text. *)
Theorem cleanBody_output_tidy (T : jsstring) :
  exists R,
    cleanBody (Some T) = Some R /\
    trim R = R /\
    has_match re_blank_lines R = false /\
    (length R <= length T)%nat.
Proof.
  exists (cleaned_text T). split; [apply cleanBody_Some|]. split; [|split].
  - unfold cleaned_text. apply trim_idem.
  - apply cleaned_text_no_blank_lines.
  - apply cleaned_text_length.
Qed.

(** X2: a sanitized text that a second pass leaves unchanged holds no match
    of the three boilerplate patterns. *)
Theorem cleanBody_stable_output_is_clean (T R : jsstring) :
  cleanBody (Some T) = Some R ->
  cleanBody (Some R) = Some R ->
  boilerplate_free R.
Proof.
  intros _. rewrite cleanBody_Some. intros [= H].
  apply cleaned_text_unchanged, H.
Qed.

Lemma cleanBody_stable_output_is_clean_witness :
  boilerplate_free (lit "before  after").
Proof.
  apply (cleanBody_stable_output_is_clean (lit "before <!-- hidden --> after")
           (lit "before  after")); vm_compute; reflexivity.
Defined.

Lemma canonicalize_lt c : canonicalize c = 60%N -> c = 60%N.
Proof.
  unfold canonicalize.
  destruct (N.leb_spec 97 c), (N.leb_spec c 122); simpl; lia.
Qed.

(** A pattern whose first character is [<] matches nowhere in a text
    without [<]. *)
Lemma no_lt_no_match (p : code_unit -> bool) re s :
  (forall c, p c = true -> c = 60%N) ->
  ~ In 60%N s ->
  has_match (One p :: re) s = false.
Proof.
  intros Hp. induction s as [|c s IH]; intros Hs; [reflexivity|].
  cbn [has_match]. rewrite match_here_One.
  destruct (p c) eqn:E.
  - apply Hp in E. subst. destruct Hs. left. reflexivity.
  - apply IH. intros H. apply Hs. right. exact H.
Qed.

(** X3: a text without the character [<] loses nothing but white space: its
    runs of three or more newlines are collapsed to two and its ends are
    trimmed. *)
Theorem cleanBody_without_angle_bracket (T : jsstring) :
  ~ In 60%N T ->
  cleanBody (Some T) = Some (trim (replace re_blank_lines [LF; LF] T)).
Proof.
  intros H. rewrite cleanBody_Some. unfold cleaned_text, collapse.
  rewrite (replace_no_match re_html_comment).
  2:{ apply no_lt_no_match; [|exact H]. intros c Hc. apply N.eqb_eq in Hc. exact Hc. }
  rewrite (replace_no_match re_additional_locations).
  2:{ apply no_lt_no_match; [|exact H]. intros c Hc.
      apply N.eqb_eq in Hc. apply canonicalize_lt. exact Hc. }
  rewrite (replace_no_match re_cursor_link).
  2:{ apply no_lt_no_match; [|exact H]. intros c Hc.
      apply N.eqb_eq in Hc. apply canonicalize_lt. exact Hc. }
  reflexivity.
Qed.

Lemma cleanBody_without_angle_bracket_witness :
  cleanBody (Some (lit " a --> b" ++ [LF; LF; LF; LF] ++ lit "c "))
  = Some (lit "a --> b" ++ [LF; LF] ++ lit "c").
Proof.
  etransitivity; [apply cleanBody_without_angle_bracket | vm_compute; reflexivity].
  vm_compute. intros H. repeat (destruct H as [H|H]; [discriminate|]). exact H.
Defined.

(** ** Classification of authors and comments *)

Lemma startsWith_spec s p : startsWith s p = true <-> exists post, s = p ++ post.
Proof.
  revert s. induction p as [|a p IH]; intros s.
  - split; [intros _; exists s; reflexivity | destruct s; reflexivity].
  - destruct s as [|c s]; cbn [startsWith].
    + split; [discriminate | intros [post H]; discriminate].
    + rewrite andb_true_iff, N.eqb_eq, IH. split.
      * intros [-> [post ->]]. exists post. reflexivity.
      * intros [post [= -> ->]]. split; [reflexivity | exists post; reflexivity].
Qed.

Lemma includes_spec s p : includes s p = true <-> exists pre post, s = pre ++ p ++ post.
Proof.
  induction s as [|c s IH]; cbn [includes].
  - rewrite orb_false_r, startsWith_spec. split.
    + intros [post H]. exists [], post. exact H.
    + intros (pre & post & H). destruct pre; [|discriminate]. exists post. exact H.
  - rewrite orb_true_iff, startsWith_spec, IH. split.
    + intros [[post H]|(pre & post & H)].
      * exists [], post. exact H.
      * exists (c :: pre), post. simpl. f_equal. exact H.
    + intros (pre & post & H). destruct pre as [|c' pre].
      * left. exists post. exact H.
      * right. injection H as _ H. exists pre, post. exact H.
Qed.

Lemma endsWith_spec s p : endsWith s p = true <-> exists pre, s = pre ++ p.
Proof.
  unfold endsWith. rewrite startsWith_spec. split.
  - intros [post H]. exists (rev post).
    rewrite <- (rev_involutive s), H, rev_app_distr, rev_involutive. reflexivity.
  - intros [pre ->]. exists (rev pre). apply rev_app_distr.
Qed.

(** X4: a login counts as automated exactly when it is [Copilot] or
    [github-actions] or holds [bot] somewhere, in lower case; the test for the
    suffix [[bot]] adds nothing to these.  An absent login is never
    automated. *)
Theorem isBot_spec (u : jsstring) :
  isBot None = false /\
  (isBot (Some u) = true <->
     u = lit "Copilot" \/ u = lit "github-actions" \/
     exists pre post, u = pre ++ lit "bot" ++ post).
Proof.
  split; [reflexivity|].
  destruct u as [|c u].
  - simpl. split; [discriminate|].
    intros [H|[H|(pre & post & H)]]; try discriminate.
    destruct pre; discriminate.
  - cbn [isBot]. rewrite !orb_true_iff. unfold jsstring_eqb.
    rewrite !bool_decide_eq_true, endsWith_spec, includes_spec. split.
    + intros [[[[pre H]|H]|H]|H]; auto.
      right. right. exists (pre ++ lit "["), (lit "]").
      rewrite H, <- app_assoc. reflexivity.
    + intros [H|[H|H]]; auto.
Qed.

(** X5: the default meta filters only ever suppress comments of automated
    authors: a comment they classify as meta has a login that [isBot]
    accepts, so no human comment is dropped by them. *)
Theorem default_meta_is_bot (user body : option jsstring) :
  isMetaComment user body DEFAULT_META_FILTERS = true -> isBot user = true.
Proof.
  unfold isMetaComment. destruct body as [[|c b]|]; try discriminate.
  unfold DEFAULT_META_FILTERS, existsb. rewrite !orb_true_iff, !andb_true_iff.
  unfold str_is, jsstring_eqb. destruct user as [u|].
  - rewrite !bool_decide_eq_true.
    intros [[-> _]|[[-> _]|[[-> _]|H]]]; try reflexivity. discriminate.
  - intros [[H _]|[[H _]|[[H _]|H]]]; discriminate.
Qed.

Lemma default_meta_is_bot_witness : isBot (Some (lit "vercel[bot]")) = true.
Proof.
  apply (default_meta_is_bot (Some (lit "vercel[bot]")) (Some (lit "[vc]: deployed"))).
  reflexivity.
Defined.

(** ** Filtering *)

Lemma filter_filter {A} (p q : A -> bool) l :
  List.filter q (List.filter p l) = List.filter (fun x => p x && q x) l.
Proof.
  induction l as [|x l IH]; simpl; [reflexivity|].
  destruct (p x); simpl; [destruct (q x)|]; rewrite ?IH; reflexivity.
Qed.

Lemma filter_true {A} (l : list A) : List.filter (fun _ => true) l = l.
Proof. apply filter_all. reflexivity. Qed.

Lemma filterComments_keeps cs options :
  filterComments cs options =
  List.filter (fun c => actorKeeps options c && stateKeeps options c) cs.
Proof.
  unfold filterComments, actorKeeps, stateKeeps.
  destruct (botsOnly options), (humansOnly options),
    (str_is (filter_ options) "unresolved"), (str_is (filter_ options) "unanswered");
    rewrite ?filter_filter; try reflexivity;
    try (apply filter_ext; intros c; rewrite ?andb_true_r; reflexivity);
    symmetry; apply filter_true.
Qed.

Lemma filter_StronglySorted {A} (R : A -> A -> Prop) (p : A -> bool) l :
  StronglySorted R l -> StronglySorted R (List.filter p l).
Proof.
  induction 1 as [|x l Hl IH Hx]; simpl; [constructor|].
  destruct (p x); [|exact IH]. constructor; [exact IH|].
  rewrite List.Forall_forall in *. intros y Hy. apply filter_In in Hy as [Hy _].
  apply Hx, Hy.
Qed.

(** X6: filtering keeps, in their order, exactly the entities that pass both
    the actor test and the state test of the options, and nothing else; so
    filtering a second time with the same options changes nothing. *)
Theorem filterComments_selects (cs : list Comment) (options : Options) :
  (forall c, In c (filterComments cs options) <->
     In c cs /\ actorKeeps options c = true /\ stateKeeps options c = true) /\
  (exists keep, filterComments cs options = List.filter keep cs) /\
  filterComments (filterComments cs options) options = filterComments cs options.
Proof.
  split; [|split].
  - intros c. rewrite filterComments_keeps, filter_In, andb_true_iff. reflexivity.
  - eexists. apply filterComments_keeps.
  - rewrite !filterComments_keeps, filter_filter. apply filter_ext.
    intros c. destruct (actorKeeps options c && stateKeeps options c); reflexivity.
Qed.

(** X7: with the state filter [unresolved] no returned entity is resolved or
    has a human reply; with [unanswered] no returned entity has any reply. *)
Theorem filterComments_state_filters (cs : list Comment) (options : Options) (c : Comment) :
  In c (filterComments cs options) ->
  (filter_ options = Some (lit "unresolved") ->
     c_isResolved c = false /\ c_hasHumanReply c = false) /\
  (filter_ options = Some (lit "unanswered") -> c_hasAnyReply c = false).
Proof.
  rewrite filterComments_keeps, filter_In, andb_true_iff.
  intros (_ & _ & Hs). unfold stateKeeps in Hs. split; intros E; rewrite E in Hs.
  - change (unresolvedP c = true) in Hs. unfold unresolvedP in Hs.
    apply negb_true_iff, orb_false_iff in Hs. exact Hs.
  - change (unansweredP c = true) in Hs. unfold unansweredP in Hs.
    apply negb_true_iff in Hs. exact Hs.
Qed.

Lemma filterComments_state_filters_witness :
  let options := {| botsOnly := false; humansOnly := false;
                    filter_ := Some (lit "unresolved");
                    watchInterval := 30; watchTimeout := 600 |} in
  c_isResolved (testEntity 1 true false false false) = false /\
  c_hasHumanReply (testEntity 1 true false false false) = false.
Proof.
  intros options.
  apply (filterComments_state_filters testComments options
           (testEntity 1 true false false false)).
  - vm_compute. left. reflexivity.
  - reflexivity.
Defined.

(** X8: when both actor options are set, bots-only wins: the result is the
    one of bots-only alone, and every returned entity is automated. *)
Theorem filterComments_botsOnly_wins (cs : list Comment) (options : Options) :
  botsOnly options = true ->
  filterComments cs options =
    filterComments cs {| botsOnly := true; humansOnly := false;
                         filter_ := filter_ options;
                         watchInterval := watchInterval options;
                         watchTimeout := watchTimeout options |} /\
  forall c, In c (filterComments cs options) -> c_isBot c = true.
Proof.
  intros Hb. split.
  - unfold filterComments. simpl. rewrite Hb. reflexivity.
  - intros c. rewrite filterComments_keeps, filter_In, andb_true_iff.
    unfold actorKeeps. rewrite Hb. tauto.
Qed.

Lemma filterComments_botsOnly_wins_witness :
  map c_id (filterComments testComments
              {| botsOnly := true; humansOnly := true; filter_ := None;
                 watchInterval := 30; watchTimeout := 600 |}) = [1; 3]%Z.
Proof.
  rewrite (proj1 (filterComments_botsOnly_wins testComments
                    {| botsOnly := true; humansOnly := true; filter_ := None;
                       watchInterval := 30; watchTimeout := 600 |} eq_refl)).
  vm_compute. reflexivity.
Defined.

(** X9: when the creation time of every normalized entity parses,
    normalization followed by filtering yields a sequence sorted by creation
    time, newest first, whatever the options. *)
Theorem filtered_output_sorted (data : RawData) (po : ProcessOptions) (options : Options) :
  dated (processComments data po) ->
  StronglySorted newestFirst (filterComments (processComments data po) options).
Proof.
  intros Hd. rewrite filterComments_keeps. apply filter_StronglySorted.
  apply processComments_sorted_when_dated, Hd.
Qed.

Lemma filtered_output_sorted_witness :
  let data := {| reviewComments := [makeReviewComment 1 100 None;
                                    makeReviewComment 2 300 None];
                 issueComments := [];
                 reviews := [makeReview 7 200 "APPROVED" (Some (lit "Ship it"))] |} in
  let options := {| botsOnly := true; humansOnly := false; filter_ := None;
                    watchInterval := 30; watchTimeout := 600 |} in
  map c_id (filterComments (processComments data defaultOptions) options) = [2; 1]%Z /\
  StronglySorted newestFirst (filterComments (processComments data defaultOptions) options).
Proof.
  intros data options. split; [vm_compute; reflexivity|].
  apply (filtered_output_sorted data defaultOptions options).
  intros e He. vm_compute in He.
  destruct He as [<-|[<-|[<-|[]]]]; discriminate.
Defined.

(** ** Normalization *)

Lemma cleanBody_tidy body b :
  cleanBody body = Some b -> trim b = b /\ has_match re_blank_lines b = false.
Proof.
  destruct body as [T|]; [|discriminate].
  rewrite cleanBody_Some. intros [= <-]. split.
  - unfold cleaned_text. apply trim_idem.
  - apply cleaned_text_no_blank_lines.
Qed.

(** X10: in every entity of the output the reply flags agree with the
    replies it carries: [hasAnyReply] says the sequence is not empty,
    [hasHumanReply] says one of the replies is not automated (so it implies
    [hasAnyReply]); only inline comments carry replies; and [isBot] is
    [isBot] of the author, for the entity and for each reply. *)
Theorem processComments_flags (data : RawData) (options : ProcessOptions) (e : Comment) :
  In e (processComments data options) ->
  (c_hasAnyReply e = true <-> c_replies e <> []) /\
  (c_hasHumanReply e = true <-> exists r, In r (c_replies e) /\ r_isBot r = false) /\
  (c_hasHumanReply e = true -> c_hasAnyReply e = true) /\
  (c_type e <> review_comment -> c_replies e = []) /\
  c_isBot e = isBot (c_user e) /\
  (forall r, In r (c_replies e) -> r_isBot r = isBot (r_user r)).
Proof.
  intros He. apply processComments_In, emitted_inv in He.
  destruct He as [(c & _ & _ & ->)|[(c & _ & _ & ->)|(c & _ & _ & ->)]]; simpl.
  - set (rs := map mkReply _).
    assert (existsb (fun r => negb (r_isBot r)) rs = true <->
            exists r, In r rs /\ r_isBot r = false) as Hex.
    { rewrite existsb_exists. split; intros (r & Hr & Hb); exists r; split; try assumption.
      - apply negb_true_iff, Hb.
      - apply negb_true_iff, Hb. }
    repeat split.
    + intros H ->. discriminate.
    + intros H. destruct rs; [destruct H|]; reflexivity.
    + apply Hex.
    + apply Hex.
    + intros H. apply Hex in H as (r & Hr & _). destruct rs; [destruct Hr | reflexivity].
    + intros H. destruct H. reflexivity.
    + intros r Hr. apply in_map_iff in Hr as (c' & <- & _). reflexivity.
  - split; [split; [discriminate | intros H; destruct H; reflexivity]|].
    split; [split; [discriminate | intros (r & [] & _)]|].
    split; [discriminate|]. split; [reflexivity|]. split; [reflexivity | intros r []].
  - split; [split; [discriminate | intros H; destruct H; reflexivity]|].
    split; [split; [discriminate | intros (r & [] & _)]|].
    split; [discriminate|]. split; [reflexivity|]. split; [reflexivity | intros r []].
Qed.

Lemma processComments_flags_witness :
  let reply := makeReviewComment 2 200 (Some 1%Z) in
  let e := mkReviewComment [mkReply reply] (makeReviewComment 1 100 None) in
  c_hasAnyReply e = true <-> c_replies e <> [].
Proof.
  intros reply e.
  apply (processComments_flags
           {| reviewComments := [makeReviewComment 1 100 None; reply];
              issueComments := []; reviews := [] |} defaultOptions e).
  vm_compute. left. reflexivity.
Defined.

(** X11: every body of the output, of an entity or of a reply, is
    sanitized: trimming it changes nothing and it holds no run of three
    newlines. *)
Theorem processComments_bodies_tidy (data : RawData) (options : ProcessOptions)
    (e : Comment) :
  In e (processComments data options) ->
  (forall b, c_body e = Some b -> trim b = b /\ has_match re_blank_lines b = false) /\
  (forall r b, In r (c_replies e) -> r_body r = Some b ->
     trim b = b /\ has_match re_blank_lines b = false).
Proof.
  intros He. apply processComments_In, emitted_inv in He.
  destruct He as [(c & _ & _ & ->)|[(c & _ & _ & ->)|(c & _ & _ & ->)]]; simpl;
    (split; [intros b; apply cleanBody_tidy|]); try (intros r b []).
  intros r b Hr. apply in_map_iff in Hr as (c' & <- & _). simpl. apply cleanBody_tidy.
Qed.

Lemma processComments_bodies_tidy_witness :
  trim (lit "A finding") = lit "A finding" /\
  has_match re_blank_lines (lit "A finding") = false.
Proof.
  apply (proj1 (processComments_bodies_tidy
                  {| reviewComments := [makeReviewComment 1 100 None];
                     issueComments := []; reviews := [] |} defaultOptions
                  (mkReviewComment [] (makeReviewComment 1 100 None))
                  (or_introl eq_refl))).
  vm_compute. reflexivity.
Defined.

(** X12: when the creation time of every normalized entity parses, the
    entities created at one and the same time come out in the order in which
    they were pushed, inline comments first, then general comments, then
    review verdicts, each kind in the order received; and the output is the
    only arrangement of the collected entities that is newest first and keeps
    ties in that order. *)
Theorem processComments_ties_keep_push_order (data : RawData) (options : ProcessOptions) :
  dated (processComments data options) ->
  (forall t, createdAtTime t (processComments data options) =
             createdAtTime t (emitted data options)) /\
  (forall s, Permutation s (emitted data options) ->
     StronglySorted newestFirst s ->
     (forall t, createdAtTime t s = createdAtTime t (emitted data options)) ->
     s = processComments data options).
Proof.
  rewrite processComments_emitted. intros Hd.
  apply (dated_perm _ _ (sort_perm byDateDesc _)) in Hd. split.
  - intros t. apply sort_stable.
  - intros s Hp Hs Hst. apply sort_is_the_stable_sort; assumption.
Qed.

Lemma processComments_ties_keep_push_order_witness :
  let data := {| reviewComments := [makeReviewComment 1 100 None;
                                    makeReviewComment 2 300 None];
                 issueComments := [];
                 reviews := [makeReview 7 300 "APPROVED" (Some (lit "Ship it"));
                             makeReview 8 100 "COMMENTED" (Some (lit "Looks fine"))] |} in
  map c_id (processComments data defaultOptions) = [2; 7; 1; 8]%Z /\
  map c_id (createdAtTime 300 (processComments data defaultOptions)) = [2; 7]%Z.
Proof.
  intros data. split; [vm_compute; reflexivity|].
  assert (dated (processComments data defaultOptions)) as Hd.
  { intros e He. vm_compute in He.
    destruct He as [<-|[<-|[<-|[<-|[]]]]]; discriminate. }
  rewrite (proj1 (processComments_ties_keep_push_order data defaultOptions Hd) 300%Z).
  vm_compute. reflexivity.
Defined.

(** ** Pagination *)

Lemma OkPages_count {A} (proxyFetch : Transport (list A)) token nextUrl n pages nextUrl' n' :
  OkPages proxyFetch token nextUrl n pages nextUrl' n' -> n' = (n + length pages)%nat.
Proof.
  induction 1 as [|? ? ? ? ? ? _ _ IH]; simpl; lia.
Qed.

(** X13: when every page is successful and the last one names no next page,
    the paginated fetch returns the items of all pages, concatenated in the
    order the server sent them, after one request per page. *)
Theorem fetchAllPages_concatenates {A : Type} (proxyFetch : Transport (list A))
    (token url : jsstring) (n : nat) (pages : list (Response (list A)))
    (last : option jsstring) (n' fuel : nat) :
  OkPages proxyFetch token (Some url) n pages last n' ->
  nextLinkFalsy last ->
  (length pages <= fuel)%nat ->
  fetchAllPages fuel url token proxyFetch n =
    Some (Returned (concat (map json pages)), (n + length pages)%nat).
Proof.
  intros Hpages Hlast Hfuel.
  rewrite <- (OkPages_count _ _ _ _ _ _ _ Hpages).
  apply (fetchAllPages_returns _ _ _ _ _ _ _ _ Hpages); [|exact Hfuel].
  destruct last as [[|c u]|]; try exact I. destruct Hlast.
Qed.

Lemma fetchAllPages_concatenates_witness :
  let page1 : Response (list Z) :=
    okPage [11; 12]%Z (nextHeader "https://api.github.com/p2") in
  let page2 : Response (list Z) := okPage [13]%Z None in
  fetchAllPages 5 (lit "https://api.github.com/p1") (lit "t0ken") (serve [page1; page2] []) 0
    = Some (Returned [11; 12; 13]%Z, 2%nat).
Proof.
  intros page1 page2.
  apply (fetchAllPages_concatenates (serve [page1; page2] []) (lit "t0ken")
           (lit "https://api.github.com/p1") 0 [page1; page2] None 2 5).
  - apply (OkPages_cons (serve [page1; page2] []) (lit "t0ken") 104%N
             (lit "ttps://api.github.com/p1") 0 [page2] None 2 eq_refl).
    vm_compute.
    apply (OkPages_cons (serve [page1; page2] []) (lit "t0ken") 104%N
             (lit "ttps://api.github.com/p2") 1 [] None 2 eq_refl).
    vm_compute. apply OkPages_nil.
  - exact I.
  - simpl. lia.
Defined.

(** What a successful match of the link pattern looks like. *)
Lemma greedy_inv p re : forall s r,
  match_here (Many true p :: re) s = Some r ->
  exists a b, s = a ++ b /\ forallb p a = true /\ match_here re b = Some r.
Proof.
  induction s as [|c s IH]; intros r H; rewrite match_here_greedy in H.
  - exists [], []. auto.
  - destruct (p c) eqn:Ec.
    + destruct (match_here (Many true p :: re) s) as [r0|] eqn:E.
      * injection H as <-. destruct (IH _ eq_refl) as (a & b & -> & Ha & Hb).
        exists (c :: a), b. simpl. rewrite Ec, Ha. auto.
      * exists [], (c :: s). auto.
    + exists [], (c :: s). auto.
Qed.

Lemma greedy_skip p re a : forall b r,
  forallb p a = true -> match_here re b = Some r ->
  exists r', match_here (Many true p :: re) (a ++ b) = Some r'.
Proof.
  induction a as [|c a IH]; intros b r Ha Hb.
  - simpl app. rewrite match_here_greedy. destruct b as [|c b]; [eauto|].
    destruct (p c); [|eauto].
    destruct (match_here (Many true p :: re) b); eauto.
  - simpl in Ha. apply andb_prop in Ha as [Hc Ha].
    simpl app. rewrite match_here_greedy, Hc.
    destruct (IH b r Ha Hb) as [r' ->]. eauto.
Qed.

Lemma search_inv re : forall s t,
  search re s = Some t -> exists pre r, s = pre ++ t /\ match_here re t = Some r.
Proof.
  induction s as [|c s IH]; intros t H; cbn [search] in H.
  - destruct (match_here re []) as [r|] eqn:E; [|discriminate].
    injection H as <-. exists [], r. auto.
  - destruct (match_here re (c :: s)) as [r|] eqn:E.
    + injection H as <-. exists [], r. auto.
    + destruct (IH _ H) as (pre & r & -> & Hr). exists (c :: pre), r. auto.
Qed.

Lemma takeWhile_app {A} (p : A -> bool) a c b :
  forallb p a = true -> p c = false -> takeWhile p (a ++ c :: b) = a.
Proof.
  induction a as [|x a IH]; simpl; intros Ha Hc.
  - rewrite Hc. reflexivity.
  - apply andb_prop in Ha as [Hx Ha]. rewrite Hx, IH; auto.
Qed.

Lemma forallb_notChar a u : forallb (notChar a) u = true <-> ~ In a u.
Proof.
  induction u as [|c u IH]; simpl; [tauto|].
  rewrite andb_true_iff, IH. unfold notChar. rewrite negb_true_iff, N.eqb_neq.
  split; [intros [H1 H2] [H|H]; auto | intros H; split; auto].
Qed.

(** X14: the URL taken from a [link] header is never empty and holds no
    [>]: it is the text between a [<] and the following [>;] of the
    header. *)
Theorem nextLink_extracts (linkHeader : option jsstring) (url : jsstring) :
  nextLink linkHeader = Some url ->
  url <> [] /\ ~ In 62%N url /\
  exists pre post, linkHeader = Some (pre ++ [60%N] ++ url ++ lit ">;" ++ post).
Proof.
  unfold nextLink. destruct linkHeader as [[|h0 h]|]; try discriminate.
  destruct (search re_next_link (h0 :: h)) as [[|t0 t]|] eqn:E; try discriminate.
  intros [= <-]. apply search_inv in E as (pre & r & -> & Hm).
  change re_next_link with
    (One (isChar 60%N) :: One (notChar 62%N) :: Many true (notChar 62%N) ::
     One (isChar 62%N) :: One (isChar 59%N) ::
     ([Many true isWhiteSpace] ++ chars ("rel=" ++ DQUOTE ++ "next" ++ DQUOTE))) in Hm.
  rewrite match_here_One in Hm. destruct (isChar 60%N t0) eqn:E0; [|discriminate].
  apply N.eqb_eq in E0. subst t0.
  rewrite match_here_One in Hm. destruct t as [|c t]; [discriminate|].
  destruct (notChar 62%N c) eqn:Ec; [|discriminate].
  apply greedy_inv in Hm as (a & b & -> & Ha & Hb).
  rewrite match_here_One in Hb. destruct b as [|b0 b]; [discriminate|].
  destruct (isChar 62%N b0) eqn:Eb0; [|discriminate].
  apply N.eqb_eq in Eb0. subst b0.
  rewrite match_here_One in Hb. destruct b as [|b1 b]; [discriminate|].
  destruct (isChar 59%N b1) eqn:Eb1; [|discriminate].
  apply N.eqb_eq in Eb1. subst b1.
  match goal with |- context [takeWhile ?p ?l] =>
    assert (takeWhile p l = c :: a) as ->
  end.
  { apply (takeWhile_app (notChar 62%N) (c :: a)); [|reflexivity].
    simpl. rewrite Ec, Ha. reflexivity. }
  split; [discriminate|]. split.
  - apply forallb_notChar. simpl. rewrite Ec, Ha. reflexivity.
  - exists pre, b. reflexivity.
Qed.

Lemma nextLink_extracts_witness :
  lit "https://api.github.com/x?page=2" <> [] /\
  ~ In 62%N (lit "https://api.github.com/x?page=2") /\
  exists pre post,
    nextHeader "https://api.github.com/x?page=2" =
    Some (pre ++ [60%N] ++ lit "https://api.github.com/x?page=2" ++ lit ">;" ++ post).
Proof.
  apply (nextLink_extracts (nextHeader "https://api.github.com/x?page=2")).
  vm_compute. reflexivity.
Defined.

(** X15: a header that starts with [<url>; rel="next"], for a non-empty URL
    without [>], yields that URL, whatever follows in the header. *)
Theorem nextLink_reads_next (url post : jsstring) :
  url <> [] -> ~ In 62%N url ->
  nextLink (Some ([60%N] ++ url ++
                  lit (">; rel=" ++ DQUOTE ++ "next" ++ DQUOTE) ++ post)) = Some url.
Proof.
  intros Hne Hgt. destruct url as [|c a]; [destruct Hne; reflexivity|].
  apply forallb_notChar in Hgt. simpl in Hgt. apply andb_prop in Hgt as [Hc Ha].
  set (tail := lit (">; rel=" ++ DQUOTE ++ "next" ++ DQUOTE) ++ post).
  assert (exists r, match_here re_next_link ([60%N] ++ (c :: a) ++ tail) = Some r) as [r Hr].
  { change re_next_link with
      (One (isChar 60%N) :: One (notChar 62%N) :: Many true (notChar 62%N) ::
       (chars ">;" ++ [Many true isWhiteSpace] ++
        chars ("rel=" ++ DQUOTE ++ "next" ++ DQUOTE))).
    simpl app. rewrite match_here_One. simpl isChar.
    rewrite match_here_One, Hc.
    apply (greedy_skip _ _ a tail post Ha).
    unfold tail. vm_compute. reflexivity. }
  unfold nextLink. simpl app in *. cbn [search]. rewrite Hr.
  f_equal. apply (takeWhile_app (notChar 62%N) (c :: a)); [|reflexivity].
  simpl. rewrite Hc, Ha. reflexivity.
Qed.

Lemma nextLink_reads_next_witness :
  nextLink (Some ([60%N] ++ lit "https://api.github.com/x?page=2" ++
                  lit (">; rel=" ++ DQUOTE ++ "next" ++ DQUOTE) ++
                  lit (", <https://api.github.com/x?page=5>; rel=" ++ DQUOTE ++ "last" ++ DQUOTE)))
  = Some (lit "https://api.github.com/x?page=2").
Proof.
  apply nextLink_reads_next.
  - discriminate.
  - vm_compute. intros H. repeat (destruct H as [H|H]; [discriminate|]). exact H.
Defined.

Lemma fetchLoop_endless {A} (proxyFetch : Transport (list A)) token :
  (forall n req, ok (proxyFetch n req) = true /\ nextLink (link (proxyFetch n req)) <> None) ->
  forall fuel c url results n,
    fetchLoop fuel token proxyFetch (Some (c :: url)) results n = None.
Proof.
  intros H. induction fuel as [|fuel IH]; intros c url results n; [reflexivity|].
  cbn [fetchLoop]. destruct (H n (getRequest (c :: url) token)) as [Hok Hnext].
  rewrite Hok. simpl negb. cbv iota.
  destruct (nextLink (link (proxyFetch n (getRequest (c :: url) token)))) as [u|] eqn:E;
    [|destruct Hnext; reflexivity].
  destruct (nextLink_extracts _ _ E) as (Hne & _).
  destruct u as [|c' u]; [destruct Hne; reflexivity|]. apply IH.
Qed.

(** X16: the loop has no page limit: against a server whose every page is
    successful and names a next page, the paginated fetch never returns,
    however long it runs. *)
Theorem fetchAllPages_endless {A : Type} (proxyFetch : Transport (list A))
    (token : jsstring) (c : code_unit) (url : jsstring) (n fuel : nat) :
  (forall k req, ok (proxyFetch k req) = true /\ nextLink (link (proxyFetch k req)) <> None) ->
  fetchAllPages fuel (c :: url) token proxyFetch n = None.
Proof.
  intros H. apply fetchLoop_endless, H.
Qed.

Lemma fetchAllPages_endless_witness :
  fetchAllPages 1000 (lit "https://api.github.com/p1") (lit "t0ken")
    (fun _ _ => okPage [1%Z] (nextHeader "https://api.github.com/p1")) 0 = None.
Proof.
  apply (fetchAllPages_endless (fun _ _ => okPage [1%Z] (nextHeader "https://api.github.com/p1"))
           (lit "t0ken") 104%N (lit "ttps://api.github.com/p1") 0 1000).
  intros k req. split; [reflexivity|]. vm_compute. discriminate.
Defined.

(** ** Watch loop *)

Lemma pollOnce_rejected_poll fetchPRComments clock options st :
  fetchPRComments (fetches st) = None ->
  pollOnce fetchPRComments clock options st =
  Stop Rejected
    {| seenIds := seenIds st; lastActivityTime := lastActivityTime st;
       pollCount := S (pollCount st); fetches := S (fetches st);
       trace := trace st ++ [Sleep (watchInterval options); Fetch] |}.
Proof.
  intros H. unfold pollOnce, fetchFiltered. simpl. rewrite H.
  rewrite <- app_assoc. reflexivity.
Qed.

Lemma pollOnce_idle fetchPRComments clock options st rawData :
  fetchPRComments (fetches st) = Some rawData ->
  notIn (seenIds st) (pass rawData options) = [] ->
  pollOnce fetchPRComments clock options st =
  let inactiveSeconds :=
    roundSeconds (clock (S (pollCount st)) - lastActivityTime st) in
  if (watchTimeout options <=? inactiveSeconds)%Z
  then Stop ExitTimeout
         (emit (WatchComplete (size (seenIds st)))
            (afterIdlePoll options inactiveSeconds st))
  else Continue (afterIdlePoll options inactiveSeconds st).
Proof.
  intros H Hnone. unfold pollOnce, fetchFiltered. simpl. rewrite H.
  fold (pass rawData options). unfold unseen. simpl.
  fold (notIn (seenIds st) (pass rawData options)). rewrite Hnone. simpl.
  unfold afterIdlePoll, emit. simpl. rewrite <- !app_assoc. simpl.
  destruct (watchTimeout options <=? _)%Z; reflexivity.
Qed.

Lemma pollOnce_detected fetchPRComments clock options st rawData :
  fetchPRComments (fetches st) = Some rawData ->
  let newComments := notIn (seenIds st) (pass rawData options) in
  newComments <> [] ->
  let detected :=
    {| seenIds := seenIds st ∪ idsOf newComments;
       lastActivityTime := lastActivityTime st;
       pollCount := S (pollCount st); fetches := S (S (fetches st));
       trace := trace st ++
         [Sleep (watchInterval options); Fetch;
          NewCommentsDetected (length newComments); Sleep 5; Fetch] |} in
  pollOnce fetchPRComments clock options st =
  match fetchPRComments (S (fetches st)) with
  | None => Stop Rejected detected
  | Some graceData =>
      let lateComments :=
        notIn (seenIds st ∪ idsOf newComments) (pass graceData options) in
      let st5 := markSeen lateComments detected in
      Stop (ExitNewComments (newComments ++ lateComments))
        (emit (Report (newComments ++ lateComments))
           (if (0 <? length lateComments)%nat
            then emit (CaughtAdditional (length lateComments)) st5 else st5))
  end.
Proof.
  intros H newComments Hnew detected.
  unfold pollOnce, fetchFiltered. simpl. rewrite H.
  fold (pass rawData options). unfold unseen. simpl.
  fold (notIn (seenIds st) (pass rawData options)). fold newComments.
  apply length_pos_nonempty in Hnew. rewrite Hnew. simpl.
  destruct (fetchPRComments (S (fetches st))) as [graceData|].
  - fold (pass graceData options). unfold unseen. simpl. rewrite !fold_seen.
    fold (notIn (seenIds st ∪ idsOf newComments) (pass graceData options)).
    unfold detected, markSeen. simpl. rewrite !fold_seen, <- !app_assoc. reflexivity.
  - unfold detected. rewrite !fold_seen, <- !app_assoc. reflexivity.
Qed.

Lemma noReport_app a b : noReport a -> noReport b -> noReport (a ++ b).
Proof.
  intros Ha Hb cs H. apply in_app_or in H as [H|H]; [exact (Ha _ H) | exact (Hb _ H)].
Qed.

Lemma notIn_unseen seen cs c : In c (notIn seen cs) -> In c cs /\ c_id c ∉ seen.
Proof.
  unfold notIn. rewrite filter_In, negb_true_iff, bool_decide_eq_false. tauto.
Qed.

(** What one turn of the loop does to the seen set and to the trace. *)
Lemma pollOnce_step fetchPRComments clock options st :
  match pollOnce fetchPRComments clock options st with
  | Continue st' =>
      seenIds st' = seenIds st /\
      exists mid, trace st' = trace st ++ mid /\ noReport mid
  | Stop (ExitNewComments cs) st' =>
      (exists mid, trace st' = trace st ++ mid ++ [Report cs] /\ noReport mid) /\
      cs <> [] /\
      forall c, In c cs -> (c_id c ∉ seenIds st) /\ (c_id c ∈ seenIds st')
  | Stop _ st' =>
      exists mid, trace st' = trace st ++ mid /\ noReport mid
  end.
Proof.
  destruct (fetchPRComments (fetches st)) as [rawData|] eqn:Hf.
  - destruct (notIn (seenIds st) (pass rawData options)) as [|c0 new] eqn:Hn.
    + rewrite (pollOnce_idle _ _ _ _ _ Hf Hn). cbv zeta.
      destruct (watchTimeout options <=? _)%Z.
      * eexists. split; [unfold emit, afterIdlePoll; simpl; rewrite <- app_assoc; reflexivity|].
        intros cs H. simpl in H. repeat (destruct H as [H|H]; [discriminate|]). exact H.
      * split; [reflexivity|]. eexists. split; [reflexivity|].
        intros cs H. simpl in H. repeat (destruct H as [H|H]; [discriminate|]). exact H.
    + assert (notIn (seenIds st) (pass rawData options) <> []) as Hne
        by (rewrite Hn; discriminate).
      rewrite (pollOnce_detected _ _ _ _ _ Hf Hne). cbv zeta.
      destruct (fetchPRComments (S (fetches st))) as [graceData|].
      * set (newComments := notIn (seenIds st) (pass rawData options)) in *.
        set (lateComments := notIn (seenIds st ∪ idsOf newComments) (pass graceData options)).
        split; [|split].
        -- exists ([Sleep (watchInterval options); Fetch;
                    NewCommentsDetected (length newComments); Sleep 5; Fetch] ++
                   (if (0 <? length lateComments)%nat
                    then [CaughtAdditional (length lateComments)] else [])).
           split.
           ++ destruct (0 <? length lateComments)%nat; simpl; rewrite <- !app_assoc; reflexivity.
           ++ intros cs H. destruct (0 <? length lateComments)%nat; simpl in H;
                repeat (destruct H as [H|H]; [discriminate|]); exact H.
        -- rewrite Hn. discriminate.
        -- intros c Hc.
           assert (seenIds
                     (emit (Report (newComments ++ lateComments))
                        (if (0 <? length lateComments)%nat
                         then emit (CaughtAdditional (length lateComments))
                                (markSeen lateComments
                                   {| seenIds := seenIds st ∪ idsOf newComments;
                                      lastActivityTime := lastActivityTime st;
                                      pollCount := S (pollCount st);
                                      fetches := S (S (fetches st));
                                      trace := trace st ++
                                        [Sleep (watchInterval options); Fetch;
                                         NewCommentsDetected (length newComments);
                                         Sleep 5; Fetch] |})
                         else markSeen lateComments
                                {| seenIds := seenIds st ∪ idsOf newComments;
                                   lastActivityTime := lastActivityTime st;
                                   pollCount := S (pollCount st);
                                   fetches := S (S (fetches st));
                                   trace := trace st ++
                                     [Sleep (watchInterval options); Fetch;
                                      NewCommentsDetected (length newComments);
                                      Sleep 5; Fetch] |}))
                   = seenIds st ∪ idsOf newComments ∪ idsOf lateComments) as ->.
           { destruct (0 <? length lateComments)%nat; simpl; apply fold_seen. }
           apply in_app_or in Hc as [Hc|Hc].
           ++ split.
              ** apply notIn_unseen in Hc. apply Hc.
              ** apply elem_of_union_l, elem_of_union_r, elem_of_idsOf, Hc.
           ++ split.
              ** apply notIn_unseen in Hc as [_ Hc]. intros H. apply Hc.
                 apply elem_of_union_l, H.
              ** apply elem_of_union_r, elem_of_idsOf, Hc.
      * eexists. split; [simpl; reflexivity|].
        intros cs H. simpl in H. repeat (destruct H as [H|H]; [discriminate|]). exact H.
  - rewrite (pollOnce_rejected_poll _ _ _ _ Hf).
    eexists. split; [simpl; reflexivity|].
    intros cs H. simpl in H. repeat (destruct H as [H|H]; [discriminate|]). exact H.
Qed.

Lemma watchLoop_exit fetchPRComments clock options fuel : forall st exit st',
  watchLoop fuel fetchPRComments clock options st = Some (exit, st') ->
  noReport (trace st) ->
  match exit with
  | ExitNewComments cs =>
      (exists pre, trace st' = pre ++ [Report cs] /\ noReport pre) /\
      cs <> [] /\
      forall c, In c cs -> (c_id c ∉ seenIds st) /\ (c_id c ∈ seenIds st')
  | _ => noReport (trace st')
  end.
Proof.
  induction fuel as [|fuel IH]; intros st exit st' H Hno; [discriminate|].
  cbn [watchLoop] in H.
  pose proof (pollOnce_step fetchPRComments clock options st) as Hstep.
  destruct (pollOnce fetchPRComments clock options st) as [st1|exit1 st1].
  - destruct Hstep as (Hseen & mid & Htr & Hmid).
    specialize (IH st1 exit st' H).
    rewrite Htr, Hseen in IH. apply IH. apply noReport_app; assumption.
  - injection H as <- <-.
    destruct exit1 as [cs| |].
    + destruct Hstep as ((mid & Htr & Hmid) & Hne & Hc).
      split; [|split; assumption].
      exists (trace st ++ mid). rewrite Htr, app_assoc. split; [reflexivity|].
      apply noReport_app; assumption.
    + destruct Hstep as (mid & -> & Hmid). apply noReport_app; assumption.
    + destruct Hstep as (mid & -> & Hmid). apply noReport_app; assumption.
Qed.

Lemma left_id_seen (X : gset Z) : ∅ ∪ X = X.
Proof. apply (left_id_L ∅ (∪)). Qed.

Lemma watchForComments_start fuel fetchPRComments clock options initial :
  fetchPRComments O = Some initial ->
  watchForComments fuel fetchPRComments clock options =
  watchLoop fuel fetchPRComments clock options
    {| seenIds := idsOf (pass initial options); lastActivityTime := clock O;
       pollCount := O; fetches := 1;
       trace := [Fetch; InitialState (pass initial options)] |}.
Proof.
  intros H. unfold watchForComments, fetchFiltered. simpl. rewrite H.
  fold (pass initial options). unfold markSeen, emit. simpl.
  rewrite fold_seen, left_id_seen. reflexivity.
Qed.

(** X17: the watch reports only what it has not seen: when it exits with
    new comments, the list is not empty, none of the reported entities has an
    id that the priming pass already returned, and the ids of all of them are
    in the seen set at the end. *)
Theorem watch_reports_only_unseen (fuel : nat) (fetchPRComments : nat -> option RawData)
    (clock : nat -> Z) (options : Options) (cs : list Comment) (st : WatchState) :
  watchForComments fuel fetchPRComments clock options = Some (ExitNewComments cs, st) ->
  exists initial,
    fetchPRComments O = Some initial /\
    cs <> [] /\
    forall c, In c cs ->
      (c_id c ∉ idsOf (pass initial options)) /\ (c_id c ∈ seenIds st).
Proof.
  intros H. destruct (fetchPRComments O) as [initial|] eqn:Hf.
  - rewrite (watchForComments_start _ _ _ _ _ Hf) in H.
    apply watchLoop_exit in H.
    + destruct H as (_ & Hne & Hc). exists initial. auto.
    + intros x Hx. simpl in Hx. repeat (destruct Hx as [Hx|Hx]; [discriminate|]). exact Hx.
  - unfold watchForComments, fetchFiltered in H. simpl in H. rewrite Hf in H. discriminate.
Qed.

Lemma watch_reports_only_unseen_witness :
  exists initial,
    scenarioFetch O = Some initial /\
    [mkReviewComment [] (makeReviewComment 1 100 None)] <> [] /\
    forall c, In c [mkReviewComment [] (makeReviewComment 1 100 None)] ->
      (c_id c ∉ idsOf (pass initial scenarioOptions)) /\
      (c_id c ∈ seenIds
        {| seenIds := {[1%Z]}; lastActivityTime := 0; pollCount := 1; fetches := 3;
           trace := [Fetch; InitialState []; Sleep 1; Fetch; NewCommentsDetected 1;
                     Sleep 5; Fetch;
                     Report [mkReviewComment [] (makeReviewComment 1 100 None)]] |}).
Proof.
  apply (watch_reports_only_unseen 10 scenarioFetch scenarioClock scenarioOptions).
  vm_compute. reflexivity.
Defined.

(** X18: a watch reports at most once, and only as its last act: when it
    exits with new comments the report of exactly those comments is the last
    event and the only report of the trace; when it times out or a fetch is
    rejected, nothing was reported at all. *)
Theorem watch_report_is_last (fuel : nat) (fetchPRComments : nat -> option RawData)
    (clock : nat -> Z) (options : Options) (exit : Exit) (st : WatchState) :
  watchForComments fuel fetchPRComments clock options = Some (exit, st) ->
  match exit with
  | ExitNewComments cs => exists pre, trace st = pre ++ [Report cs] /\ noReport pre
  | _ => noReport (trace st)
  end.
Proof.
  intros H. destruct (fetchPRComments O) as [initial|] eqn:Hf.
  - rewrite (watchForComments_start _ _ _ _ _ Hf) in H.
    apply watchLoop_exit in H.
    + destruct exit; [apply H | exact H | exact H].
    + intros x Hx. simpl in Hx. repeat (destruct Hx as [Hx|Hx]; [discriminate|]). exact Hx.
  - unfold watchForComments, fetchFiltered in H. simpl in H. rewrite Hf in H.
    injection H as <- <-. intros x Hx. simpl in Hx.
    repeat (destruct Hx as [Hx|Hx]; [discriminate|]). exact Hx.
Qed.

Lemma watch_report_is_last_witness :
  noReport [Fetch; InitialState [mkReviewComment [] (makeReviewComment 1 100 None)];
            Sleep 1; Fetch; NoNewComments 1 1;
            Sleep 1; Fetch; NoNewComments 2 2; WatchComplete 1].
Proof.
  apply (watch_report_is_last 10 idleFetch scenarioClock scenarioOptions ExitTimeout
           {| seenIds := {[1%Z]}; lastActivityTime := 0; pollCount := 2; fetches := 3;
              trace := [Fetch;
                        InitialState [mkReviewComment [] (makeReviewComment 1 100 None)];
                        Sleep 1; Fetch; NoNewComments 1 1;
                        Sleep 1; Fetch; NoNewComments 2 2; WatchComplete 1] |}).
  vm_compute. reflexivity.
Defined.

Lemma watchLoop_times_out fetchPRComments clock options k : forall d st fuel,
  (pollCount st + d = k)%nat -> (1 <= d)%nat ->
  fetches st = S (pollCount st) ->
  (forall j, (pollCount st < j <= k)%nat ->
     exists rawData, fetchPRComments j = Some rawData /\
                     notIn (seenIds st) (pass rawData options) = []) ->
  (forall j, (pollCount st < j < k)%nat ->
     (roundSeconds (clock j - lastActivityTime st) < watchTimeout options)%Z) ->
  (watchTimeout options <= roundSeconds (clock k - lastActivityTime st))%Z ->
  (d <= fuel)%nat ->
  exists st',
    watchLoop fuel fetchPRComments clock options st = Some (ExitTimeout, st') /\
    pollCount st' = k /\ fetches st' = S k /\ seenIds st' = seenIds st.
Proof.
  induction d as [|d IH]; intros st fuel Hk Hd Hf Hidle Hbefore Hat Hfuel; [lia|].
  destruct fuel as [|fuel]; [lia|]. cbn [watchLoop].
  destruct (Hidle (S (pollCount st)) ltac:(lia)) as (rawData & Hraw & Hnone).
  rewrite <- Hf in Hraw. rewrite (pollOnce_idle _ _ _ _ _ Hraw Hnone). cbv zeta.
  destruct d as [|d].
  - replace (S (pollCount st)) with k by lia.
    apply Z.leb_le in Hat. rewrite Hat.
    eexists. split; [reflexivity|]. simpl. repeat split; lia.
  - assert (roundSeconds (clock (S (pollCount st)) - lastActivityTime st)
              < watchTimeout options)%Z as Hlt by (apply Hbefore; lia).
    apply Z.leb_gt in Hlt. rewrite Hlt.
    set (st1 := afterIdlePoll options
                  (roundSeconds (clock (S (pollCount st)) - lastActivityTime st)) st).
    assert (pollCount st1 + S d = k)%nat as H1 by (simpl; lia).
    assert (fetches st1 = S (pollCount st1)) as H3 by (simpl; lia).
    assert (forall j, (pollCount st1 < j <= k)%nat ->
              exists rawData, fetchPRComments j = Some rawData /\
                              notIn (seenIds st1) (pass rawData options) = []) as H4
      by (intros j Hj; apply Hidle; simpl in Hj; lia).
    assert (forall j, (pollCount st1 < j < k)%nat ->
              (roundSeconds (clock j - lastActivityTime st1) < watchTimeout options)%Z) as H5
      by (intros j Hj; apply Hbefore; simpl in Hj; lia).
    destruct (IH st1 fuel H1 ltac:(lia) H3 H4 H5 Hat ltac:(lia))
      as (st' & Hrun & Hp & Hfe & Hs).
    exists st'. auto.
Qed.

(** X19: idle time is counted from the start of the watch and never reset.
    If no poll up to the k-th brings an unseen id, and the time since the
    start, rounded to seconds, first reaches the timeout at poll k, the watch
    stops with a timeout after exactly k polls and k+1 fetches, with the seen
    set of the priming pass. *)
Theorem watch_times_out (fetchPRComments : nat -> option RawData) (clock : nat -> Z)
    (options : Options) (initial : RawData) (k fuel : nat) :
  fetchPRComments O = Some initial ->
  (1 <= k)%nat ->
  (forall j, (1 <= j <= k)%nat ->
     exists rawData, fetchPRComments j = Some rawData /\
                     notIn (idsOf (pass initial options)) (pass rawData options) = []) ->
  (forall j, (1 <= j < k)%nat ->
     (roundSeconds (clock j - clock O) < watchTimeout options)%Z) ->
  (watchTimeout options <= roundSeconds (clock k - clock O))%Z ->
  (k <= fuel)%nat ->
  exists st,
    watchForComments fuel fetchPRComments clock options = Some (ExitTimeout, st) /\
    pollCount st = k /\ fetches st = S k /\
    seenIds st = idsOf (pass initial options).
Proof.
  intros Hf Hk Hidle Hbefore Hat Hfuel.
  rewrite (watchForComments_start _ _ _ _ _ Hf).
  apply (watchLoop_times_out fetchPRComments clock options k k); simpl;
    try lia; assumption.
Qed.

Lemma watch_times_out_witness :
  exists st,
    watchForComments 10 idleFetch scenarioClock scenarioOptions = Some (ExitTimeout, st) /\
    pollCount st = 2%nat /\ fetches st = 3%nat /\
    seenIds st = idsOf (pass {| reviewComments := [makeReviewComment 1 100 None];
                                issueComments := []; reviews := [] |} scenarioOptions).
Proof.
  apply (watch_times_out idleFetch scenarioClock scenarioOptions
           {| reviewComments := [makeReviewComment 1 100 None];
              issueComments := []; reviews := [] |} 2 10).
  - reflexivity.
  - lia.
  - intros j _. eexists. split; [reflexivity|]. vm_compute. reflexivity.
  - intros j Hj. assert (j = 1%nat) as -> by lia. vm_compute. reflexivity.
  - vm_compute. discriminate.
  - lia.
Defined.

(** ** Truncation *)

Lemma newline_consumes s rest :
  match_here re_newline s = Some rest -> (length rest < length s)%nat.
Proof. apply match_here_One_length. Qed.

Lemma replace_newline s :
  replace re_newline [32%N] s = map (fun c => if isChar LF c then 32%N else c) s.
Proof.
  induction s as [|c s IH]; rewrite (replace_unfold_consuming _ newline_consumes).
  - reflexivity.
  - change (match_here re_newline (c :: s)) with (if isChar LF c then Some s else None).
    cbn [map]. destruct (isChar LF c); simpl; rewrite IH; reflexivity.
Qed.

Lemma infix_not_in {A} (x : A) pre s post : ~ In x (pre ++ s ++ post) -> ~ In x s.
Proof. intros H Hs. apply H. apply in_or_app. right. apply in_or_app. left. exact Hs. Qed.

Lemma firstn_not_in {A} (x : A) n s : ~ In x s -> ~ In x (firstn n s).
Proof.
  intros H Hx. apply H. rewrite <- (firstn_skipn n s). apply in_or_app. left. exact Hx.
Qed.

Lemma oneLine_no_newline s : ~ In LF (trim (replace re_newline [32%N] s)).
Proof.
  destruct (trim_infix (replace re_newline [32%N] s)) as (pre & post & H).
  apply (infix_not_in LF pre _ post). rewrite <- H, replace_newline.
  intros Hin. apply in_map_iff in Hin as (c & Hc & _).
  destruct (isChar LF c) eqn:E; [discriminate|].
  subst c. discriminate.
Qed.

(** X20: a truncated text holds no newline; for a limit of at least 3 it is
    never longer than the limit; and a non-empty text whose one-line form is
    longer than the limit is cut and ends with three dots: to exactly the
    limit when the limit is at least 3, and otherwise, for a one-line text of
    n characters and a limit m below 3 (negative ones included), to
    max (n + m - 3) 0 characters followed by the dots, which is longer than
    the limit. *)
Theorem truncate_bounds (str : option jsstring) (maxLength : Z) :
  ~ In LF (truncate str maxLength) /\
  ((3 <= maxLength)%Z -> (Z.of_nat (length (truncate str maxLength)) <= maxLength)%Z) /\
  (forall s, str = Some s -> s <> [] ->
     let oneLine := trim (replace re_newline [32%N] s) in
     (maxLength < Z.of_nat (length oneLine))%Z ->
     endsWith (truncate str maxLength) (lit "...") = true /\
     ((3 <= maxLength)%Z ->
      Z.of_nat (length (truncate str maxLength)) = maxLength) /\
     ((maxLength < 3)%Z ->
      Z.of_nat (length (truncate str maxLength)) =
        (Z.max (Z.of_nat (length oneLine) + maxLength - 3) 0 + 3)%Z /\
      (maxLength < Z.of_nat (length (truncate str maxLength)))%Z)).
Proof.
  split; [|split].
  - destruct str as [[|c s]|]; simpl; try tauto.
    destruct (Z.of_nat (length _) <=? maxLength)%Z.
    + apply oneLine_no_newline.
    + intros H. apply in_app_or in H as [H|H].
      * revert H. unfold slice0. apply firstn_not_in, oneLine_no_newline.
      * vm_compute in H. repeat (destruct H as [H|H]; [discriminate|]). exact H.
  - intros Hmax. destruct str as [[|c s]|]; simpl; try lia.
    destruct (Z.leb_spec (Z.of_nat (length (trim (replace re_newline [32%N] (c :: s)))))
                maxLength) as [Hle|Hgt]; [exact Hle|].
    rewrite length_app. unfold slice0.
    destruct (Z.ltb_spec (maxLength - 3) 0); [lia|].
    rewrite length_firstn. change (length (lit "...")) with 3%nat. lia.
  - intros s -> Hne oneLine Hgt.
    assert (truncate (Some s) maxLength = slice0 oneLine (maxLength - 3) ++ lit "...") as ->.
    { destruct s as [|c s]; [destruct Hne; reflexivity|].
      simpl. fold oneLine. apply Z.leb_gt in Hgt. rewrite Hgt. reflexivity. }
    split; [|split].
    + apply endsWith_spec. eexists. reflexivity.
    + intros Hmax. rewrite length_app. unfold slice0.
      destruct (Z.ltb_spec (maxLength - 3) 0); [lia|].
      rewrite length_firstn. change (length (lit "...")) with 3%nat. lia.
    + intros Hmax. rewrite length_app. unfold slice0.
      destruct (Z.ltb_spec (maxLength - 3) 0); [|lia].
      rewrite length_firstn. change (length (lit "...")) with 3%nat. lia.
Qed.

Lemma truncate_bounds_witness :
  (Z.of_nat (length (truncate (Some (lit "a rather long finding" ++ [LF] ++ lit "text")) 10))
   <= 10)%Z /\
  truncate (Some (lit "a")) 0 = lit "..." /\
  (0 < Z.of_nat (length (truncate (Some (lit "a")) 0)))%Z.
Proof.
  split; [|split].
  - apply (proj1 (proj2 (truncate_bounds
                           (Some (lit "a rather long finding" ++ [LF] ++ lit "text")) 10))).
    lia.
  - vm_compute. reflexivity.
  - apply (proj2 (proj2 (truncate_bounds (Some (lit "a")) 0)) (lit "a")).
    + reflexivity.
    + discriminate.
    + vm_compute. reflexivity.
    + lia.
Defined.

(** ** The detail command *)

Lemma find_first_sorted {A} (R : A -> A -> Prop) (p : A -> bool) l e :
  StronglySorted R l -> List.find p l = Some e ->
  In e l /\ p e = true /\ forall e', In e' l -> p e' = true -> e' = e \/ R e e'.
Proof.
  induction 1 as [|x l Hl IH Hx]; simpl; [discriminate|].
  destruct (p x) eqn:Ex.
  - intros [= <-]. split; [left; reflexivity|]. split; [exact Ex|].
    intros e' [<-|He'] _; [left; reflexivity|].
    right. rewrite List.Forall_forall in Hx. apply Hx, He'.
  - intros Hf. destruct (IH Hf) as (Hin & Hp & Hrest).
    split; [right; exact Hin|]. split; [exact Hp|].
    intros e' [<-|He'] Hpe'; [congruence|]. apply Hrest; assumption.
Qed.

(** X21: the detail command finds an entity exactly when some top-level
    entity of the normalized sequence has the id, and the entity found is one
    of the sequence with that id; since ids of different kinds may coincide,
    the one found is, when the creation time of every normalized entity
    parses, the newest with that id. *)
Theorem findComment_newest (data : RawData) (options : ProcessOptions) (t : Z) :
  let out := processComments data options in
  (findComment out (Some t) = None <-> forall e, In e out -> c_id e <> t) /\
  (forall e, findComment out (Some t) = Some e -> In e out /\ c_id e = t) /\
  (dated out ->
   forall e, findComment out (Some t) = Some e ->
   forall e', In e' out -> c_id e' = t -> newestFirst e e').
Proof.
  intros out. split; [|split].
  - unfold findComment. split.
    + intros H e He Hid. apply (find_none _ _ H) in He. apply Z.eqb_neq in He. auto.
    + intros H. destruct (List.find _ out) as [e|] eqn:E; [|reflexivity].
      apply find_some in E as [He Hid]. apply Z.eqb_eq in Hid. destruct (H e He Hid).
  - intros e H. unfold findComment in H.
    apply find_some in H as [He Hid]. apply Z.eqb_eq in Hid. split; assumption.
  - intros Hd e H. unfold findComment in H.
    pose proof (processComments_sorted_when_dated data options Hd) as Hs.
    destruct (find_first_sorted _ _ _ _ Hs H) as (Hin & Hid & Hrest).
    intros e' He' Hid'. destruct (Hrest e' He') as [->|Hn].
    + apply Z.eqb_eq, Hid'.
    + specialize (Hd e Hin). unfold newestFirst.
      destruct (c_createdAt e); [lia | destruct Hd; reflexivity].
    + exact Hn.
Qed.

Lemma findComment_newest_witness :
  let data := {| reviewComments := [makeReviewComment 1 100 None];
                 issueComments := [];
                 reviews := [makeReview 1 200 "APPROVED" (Some (lit "Ship it"))] |} in
  let verdict := mkReview (makeReview 1 200 "APPROVED" (Some (lit "Ship it"))) in
  findComment (processComments data defaultOptions) (Some 1%Z) = Some verdict /\
  c_id verdict = 1%Z /\
  newestFirst verdict (mkReviewComment [] (makeReviewComment 1 100 None)).
Proof.
  intros data verdict.
  assert (findComment (processComments data defaultOptions) (Some 1%Z) = Some verdict) as H
    by (vm_compute; reflexivity).
  destruct (findComment_newest data defaultOptions 1) as (_ & Hfound & Hnewest).
  split; [exact H|]. split; [apply (Hfound _ H)|].
  assert (dated (processComments data defaultOptions)) as Hd.
  { intros e He. vm_compute in He. destruct He as [<-|[<-|[]]]; discriminate. }
  apply (Hnewest Hd _ H).
  - vm_compute. right. left. reflexivity.
  - reflexivity.
Defined.

(** X22: a reply cannot be looked up by the detail command: for an inline
    comment that is a reply, whose id no other inline comment, general
    comment or review carries, nothing is found. *)
Theorem findComment_reply_not_found (data : RawData) (options : ProcessOptions)
    (c : ReviewComment) :
  In c (reviewComments data) ->
  truthyZ (rc_in_reply_to_id c) = true ->
  unique_id c (reviewComments data) ->
  (forall ic, In ic (issueComments data) -> ic_id ic <> rc_id c) ->
  (forall rv, In rv (reviews data) -> rv_id rv <> rc_id c) ->
  findComment (processComments data options) (Some (rc_id c)) = None.
Proof.
  intros Hc Ht Huniq Hic Hrv. unfold findComment.
  destruct (List.find _ _) as [e|] eqn:E; [|reflexivity].
  apply find_some in E as [He Hid]. apply Z.eqb_eq in Hid.
  apply processComments_In, emitted_inv in He.
  destruct He as [(c' & Hc' & Hk & ->)|[(ic & Hin & _ & ->)|(rv & Hin & _ & ->)]];
    simpl in Hid.
  - apply Huniq in Hid; [|exact Hc']. subst c'.
    apply isRoot_spec in Hk as [Hk _]. congruence.
  - destruct (Hic ic Hin Hid).
  - destruct (Hrv rv Hin Hid).
Qed.

Lemma findComment_reply_not_found_witness :
  let reply := makeReviewComment 2 200 (Some 1%Z) in
  findComment
    (processComments {| reviewComments := [makeReviewComment 1 100 None; reply];
                        issueComments := []; reviews := [] |} defaultOptions)
    (Some 2%Z) = None.
Proof.
  intros reply.
  apply (findComment_reply_not_found
           {| reviewComments := [makeReviewComment 1 100 None; reply];
              issueComments := []; reviews := [] |} defaultOptions reply).
  - simpl. auto.
  - reflexivity.
  - intros c' [<-|[<-|[]]]; simpl; intros H; [discriminate | reflexivity].
  - intros ic [].
  - intros rv [].
Defined.

(** ** Replacing the meta filters *)

(** X23: a supplied list of meta filters replaces the default ones, it is
    not added to them: with the empty list nothing is suppressed as meta, so
    every thread root, every general comment and every review with written
    text is emitted. *)
Theorem processComments_no_meta_filters (data : RawData) :
  let out := processComments data {| metaFilters := Some [] |} in
  (forall c, In c (reviewComments data) -> truthyZ (rc_in_reply_to_id c) = false ->
     exists replies, In (mkReviewComment replies c) out) /\
  (forall ic, In ic (issueComments data) -> In (mkIssueComment ic) out) /\
  (forall rv, In rv (reviews data) -> blankBody (rv_body rv) = false ->
     In (mkReview rv) out).
Proof.
  intros out.
  assert (forall u b, isMetaComment u b [] = false) as Hmeta
    by (intros u [[|x b]|]; reflexivity).
  unfold out. split; [|split].
  - intros c Hc Ht. eexists. apply processComments_In. unfold emitted. simpl.
    apply in_or_app. left. apply in_map_iff. exists c. split; [reflexivity|].
    apply filter_In. split; [exact Hc|]. unfold isRoot. rewrite Ht, Hmeta. reflexivity.
  - intros ic Hic. apply processComments_In. unfold emitted. simpl.
    apply in_or_app. right. apply in_or_app. left. apply in_map, filter_In.
    split; [exact Hic|]. unfold keepIssueComment. rewrite Hmeta. reflexivity.
  - intros rv Hrv Hb. apply processComments_In. unfold emitted. simpl.
    apply in_or_app. right. apply in_or_app. right. apply in_map, filter_In.
    split; [exact Hrv|]. unfold keepReview. rewrite Hmeta, Hb. reflexivity.
Qed.

Lemma processComments_no_meta_filters_witness :
  let status := {| ic_id := 9; ic_user := Some (lit "vercel[bot]");
                   ic_body := Some (lit "[vc]: deployment status");
                   ic_created_at := Some 10%Z; ic_updated_at := Some 10%Z;
                   ic_html_url := [] |} in
  let data := {| reviewComments := []; issueComments := [status]; reviews := [] |} in
  In (mkIssueComment status) (processComments data {| metaFilters := Some [] |}) /\
  processComments data defaultOptions = [].
Proof.
  intros status data. split.
  - apply (proj1 (proj2 (processComments_no_meta_filters data))). left. reflexivity.
  - vm_compute. reflexivity.
Defined.

(** ** Argument parsing *)

Lemma parseFrom_invariant parseInt (P : CliOptions -> Prop) :
  (forall a rest r, P r -> P (fst (consume parseInt a rest r))) ->
  forall args skip r, P r -> P (parseFrom parseInt args skip r).
Proof.
  intros Hstep. induction args as [|a rest IH]; intros skip r Hr; [exact Hr|].
  destruct skip as [|skip]; cbn [parseFrom].
  - specialize (Hstep a rest r Hr).
    destruct (consume parseInt a rest r) as [r' taken]. apply IH, Hstep.
  - apply IH, Hr.
Qed.

Ltac lit_neq := let E := fresh in intros E; vm_compute in E; discriminate.

Lemma consume_wellFormed parseInt a rest r :
  wellFormedCli r -> wellFormedCli (fst (consume parseInt a rest r)).
Proof.
  intros (Hf & Hc & Hw & Hl). unfold consume.
  repeat match goal with
         | |- context [if isArg ?x ?y ?z then _ else _] => destruct (isArg x y z)
         end;
    unfold wellFormedCli; simpl;
    (split; [solve [auto]|]); (split; [solve [auto 6]|]);
    (split; [solve [auto | lit_neq]|]); solve [auto | lit_neq].
Qed.

(** X24: whatever the arguments, the parsed state filter is absent or one of
    the two filters [filterComments] knows; the command is [list], [reply],
    [detail] or [watch]; the command [watch] comes with the [watch] flag; and
    the command stays [list] only if no reply, detail or watch option was
    read. *)
Theorem parseArgs_wellFormed (parseInt : option jsstring -> option Z)
    (args : list jsstring) :
  wellFormedCli (parseArgs parseInt args).
Proof.
  unfold parseArgs. apply (parseFrom_invariant parseInt wellFormedCli).
  - intros a rest r. apply consume_wellFormed.
  - unfold wellFormedCli. simpl. repeat split; auto; lit_neq.
Qed.

Lemma consume_filters parseInt a rest r :
  asksFilter a = false ->
  let r' := fst (consume parseInt a rest r) in
  o_botsOnly r' = o_botsOnly r /\ o_humansOnly r' = o_humansOnly r /\
  o_filter r' = o_filter r.
Proof.
  unfold asksFilter. intros H.
  apply orb_false_iff in H as [H Ha]. apply orb_false_iff in H as [H Hu].
  apply orb_false_iff in H as [Hb Hh].
  unfold consume. rewrite Hu, Ha, Hb, Hh.
  repeat match goal with
         | |- context [if isArg ?x ?y ?z then _ else _] => destruct (isArg x y z)
         end; simpl; auto.
Qed.

Lemma parseFrom_filters parseInt : forall args skip r,
  (forall a, In a args -> asksFilter a = false) ->
  let r' := parseFrom parseInt args skip r in
  o_botsOnly r' = o_botsOnly r /\ o_humansOnly r' = o_humansOnly r /\
  o_filter r' = o_filter r.
Proof.
  induction args as [|a rest IH]; intros skip r Hargs; [simpl; auto|].
  assert (forall x, In x rest -> asksFilter x = false) as Hrest
    by (intros x Hx; apply Hargs; right; exact Hx).
  destruct skip as [|skip]; cbn [parseFrom].
  - pose proof (consume_filters parseInt a rest r (Hargs a (or_introl eq_refl))) as Hc.
    destruct (consume parseInt a rest r) as [r1 taken]. simpl in Hc.
    destruct Hc as (<- & <- & <-). apply IH, Hrest.
  - apply IH, Hrest.
Qed.

(** X25: the listing is filtered only on request: when none of the
    arguments is a filter option ([--bots-only], [--humans-only],
    [--unresolved], [--unanswered] or their short forms), no actor option and
    no state filter is set, and [filterComments] with such options returns
    its input whole. *)
Theorem parseArgs_no_filter (parseInt : option jsstring -> option Z)
    (args : list jsstring) :
  (forall a, In a args -> asksFilter a = false) ->
  let r := parseArgs parseInt args in
  o_botsOnly r = false /\ o_humansOnly r = false /\ o_filter r = None /\
  forall cs interval timeout,
    filterComments cs {| botsOnly := o_botsOnly r; humansOnly := o_humansOnly r;
                         filter_ := o_filter r;
                         watchInterval := interval; watchTimeout := timeout |} = cs.
Proof.
  intros Hargs r.
  destruct (parseFrom_filters parseInt args O defaultCliOptions Hargs) as (Hb & Hh & Hf).
  change (parseFrom parseInt args O defaultCliOptions) with r in Hb, Hh, Hf.
  simpl in Hb, Hh, Hf. repeat split; try assumption.
  intros cs interval timeout. rewrite Hb, Hh, Hf. reflexivity.
Qed.

Lemma parseArgs_no_filter_witness :
  let r := parseArgs (fun _ => Some 12%Z) [lit "--json"; lit "--pr"; lit "12"] in
  o_botsOnly r = false /\ o_humansOnly r = false /\ o_filter r = None /\
  forall cs interval timeout,
    filterComments cs {| botsOnly := o_botsOnly r; humansOnly := o_humansOnly r;
                         filter_ := o_filter r;
                         watchInterval := interval; watchTimeout := timeout |} = cs.
Proof.
  apply (parseArgs_no_filter (fun _ => Some 12%Z) [lit "--json"; lit "--pr"; lit "12"]).
  intros a [<-|[<-|[<-|[]]]]; vm_compute; reflexivity.
Defined.

(** An option's value is taken as it stands, also when it reads like an
    option. *)
Example parseArgs_value_not_option :
  let r := parseArgs (fun _ => None)
             [lit "--reply"; lit "--bots-only"; lit "-u"; lit "--json"] in
  o_command r = lit "reply" /\ o_replyTo r = Some (lit "--bots-only") /\
  o_replyMessage r = Some (lit "-u") /\
  o_botsOnly r = false /\ o_filter r = None /\ o_json r = true.
Proof. vm_compute. repeat split. Qed.

(** ** Where the entities come from *)

(** X26: normalization invents nothing: every entity of the output carries
    the id of a record of the input collection of its kind (a thread root
    for an inline entity), and the output is never longer than the three
    input collections together. *)
Theorem processComments_from_input (data : RawData) (options : ProcessOptions) :
  let out := processComments data options in
  (forall e, In e out ->
     match c_type e with
     | review_comment =>
         exists c, In c (reviewComments data) /\ rc_id c = c_id e /\
                   truthyZ (rc_in_reply_to_id c) = false
     | issue_comment => exists ic, In ic (issueComments data) /\ ic_id ic = c_id e
     | review => exists rv, In rv (reviews data) /\ rv_id rv = c_id e
     end) /\
  (length out <=
   length (reviewComments data) + length (issueComments data) + length (reviews data))%nat.
Proof.
  intros out. split.
  - intros e He. apply processComments_In, emitted_inv in He.
    destruct He as [(c & Hc & Hk & ->)|[(ic & Hin & _ & ->)|(rv & Hin & _ & ->)]]; simpl.
    + apply isRoot_spec in Hk as [Hk _]. exists c. auto.
    + exists ic. auto.
    + exists rv. auto.
  - unfold out. rewrite processComments_emitted.
    rewrite (Permutation_length (sort_perm byDateDesc _)).
    unfold emitted. rewrite !length_app, !length_map.
    pose proof (filter_length_le (isRoot (default DEFAULT_META_FILTERS (metaFilters options)))
                  (reviewComments data)).
    pose proof (filter_length_le
                  (keepIssueComment (default DEFAULT_META_FILTERS (metaFilters options)))
                  (issueComments data)).
    pose proof (filter_length_le (keepReview (default DEFAULT_META_FILTERS (metaFilters options)))
                  (reviews data)).
    lia.
Qed.

Lemma processComments_from_input_witness :
  exists c, In c [makeReviewComment 1 100 None] /\ rc_id c = 1%Z /\
            truthyZ (rc_in_reply_to_id c) = false.
Proof.
  apply (proj1 (processComments_from_input
                  {| reviewComments := [makeReviewComment 1 100 None];
                     issueComments := []; reviews := [] |} defaultOptions)
           (mkReviewComment [] (makeReviewComment 1 100 None))).
  vm_compute. left. reflexivity.
Defined.
